(** * Tic-tac-toe front end: the game rules of [App.js]

    A shallow embedding of the rule functions of
    [tic_tac_toe_frontend/src/App.js] ([getInitialBoard], [checkWinner],
    [isDraw], [simpleAIMove]) and of the click and timer handlers of the
    [App] component, followed by the properties the specification states
    about them.

    Boards are JavaScript arrays of arrays and are modelled as lists of
    lists read and written by index.  A cell holds [null] or one of the
    strings ['X'] and ['O'].  Reading [board[i][j]] has three possible
    results in JavaScript and all three are kept: a [TypeError] when the
    row [board[i]] does not exist, [undefined] when the row exists and the
    column does not, and the cell otherwise. *)

From Stdlib Require Import ZArith QArith Qround Qpower Lia Lqa String DecimalString.
From Stdlib Require Import SpecFloat.
From stdpp Require Import base option list.

Local Open Scope nat_scope.

(** ** Values *)

(** The two strings used as marks. *)
Inductive mark : Set := X | O.

#[global] Instance mark_eq_dec : EqDecision mark.
Proof. solve_decision. Defined.

(** A cell of the board: [None] is JavaScript's [null]. *)
Abbreviation cell := (option mark).

(** What an expression [board[i][j]] can evaluate to. *)
Inductive value : Set :=
| Undefined
| Null
| Str (m : mark).

#[global] Instance value_eq_dec : EqDecision value.
Proof. solve_decision. Defined.

Definition cell_value (c : cell) : value :=
  match c with
  | None => Null
  | Some m => Str m
  end.

(** A board is an array of rows, a row an array of cells. *)
Abbreviation Board := (list (list cell)).

Definition coord : Set := nat * nat.

(** A line is an array of three coordinates. *)
Definition line : Set := coord * coord * coord.

(** ** Completions

    A JavaScript call either returns a value or throws; the only
    exception the rule functions can raise is the [TypeError] of a
    property read or write on [undefined]. *)
Inductive completion (A : Type) : Type :=
| Return (a : A)
| TypeError.
Arguments Return {A} a.
Arguments TypeError {A}.

Definition cbind {A B} (c : completion A) (k : A → completion B) : completion B :=
  match c with
  | Return a => k a
  | TypeError => TypeError
  end.

(** Code that also assigns to cells of the board it was given: the board
    is threaded through, and an exception leaves it as it was when the
    exception was raised. *)
Definition M (A : Type) : Type := Board → completion A * Board.

Definition ret {A} (a : A) : M A := fun b => (Return a, b).

Definition bind {A B} (m : M A) (k : A → M B) : M B :=
  fun b =>
    match m b with
    | (Return a, b') => k a b'
    | (TypeError, b') => (TypeError, b')
    end.

(** A read-only computation run on the current board. *)
Definition lift {A} (f : Board → completion A) : M A := fun b => (f b, b).

Declare Scope js_scope.
Delimit Scope js_scope with js.
Notation "'let!' x ':=' c 'in' k" := (cbind c (fun x => k))
  (at level 10, x pattern, c at level 100, k at level 200) : js_scope.
Notation "'do!' x ':=' m 'in' k" := (bind m (fun x => k))
  (at level 10, x pattern, m at level 100, k at level 200) : js_scope.
Local Open Scope js_scope.

(** ** Array access *)

(** [board[i][j]] as an expression. *)
Definition readCell (b : Board) (i j : nat) : completion value :=
  match b !! i with
  | None => TypeError
  | Some r =>
      Return (match r !! j with
              | None => Undefined
              | Some c => cell_value c
              end)
  end.

(** [board[i][j] = c].  The row must exist.  Every assignment in the
    source is to a cell that the same function has just read as [null],
    hence inside the row; the case of an assignment past the end of a
    row, where JavaScript would extend the row, never arises and is left
    as the identity. *)
Definition writeCell (b : Board) (i j : nat) (c : cell) : completion Board :=
  match b !! i with
  | None => TypeError
  | Some r => Return (<[i := <[j := c]> r]> b)
  end.

Definition rd (i j : nat) : M value := lift (fun b => readCell b i j).

Definition wr (i j : nat) (c : cell) : M unit :=
  fun b =>
    match writeCell b i j c with
    | Return b' => (Return tt, b')
    | TypeError => (TypeError, b)
    end.

(** ** [getInitialBoard] *)

Definition getInitialBoard : Board :=
  (fun _ : cell => replicate 3 (None : cell)) <$> replicate 3 (None : cell).

(** ** [checkWinner] *)

Definition directions : list line :=
  [ (* rows *)
    ((0, 0), (0, 1), (0, 2));
    ((1, 0), (1, 1), (1, 2));
    ((2, 0), (2, 1), (2, 2));
    (* cols *)
    ((0, 0), (1, 0), (2, 0));
    ((0, 1), (1, 1), (2, 1));
    ((0, 2), (1, 2), (2, 2));
    (* diagonals *)
    ((0, 0), (1, 1), (2, 2));
    ((0, 2), (1, 1), (2, 0)) ].

(** The test of one loop iteration,
    [v1 && v1 === board[b[0]][b[1]] && v1 === board[c[0]][c[1]]],
    with its left-to-right evaluation: only a mark is truthy. *)
Definition lineWinner (b : Board) (l : line) : completion (option mark) :=
  let '(p1, p2, p3) := l in
  let! v1 := readCell b p1.1 p1.2 in
  match v1 with
  | Str m =>
      let! v2 := readCell b p2.1 p2.2 in
      if decide (Str m = v2) then
        let! v3 := readCell b p3.1 p3.2 in
        Return (if decide (Str m = v3) then Some m else None)
      else Return None
  | _ => Return None
  end.

(** The loop [for (let line of directions)], leaving at the first hit. *)
Fixpoint firstWinner (b : Board) (ls : list line) : completion (option (mark * line)) :=
  match ls with
  | [] => Return None
  | l :: ls' =>
      let! w := lineWinner b l in
      match w with
      | Some m => Return (Some (m, l))
      | None => firstWinner b ls'
      end
  end.

(** The result is [{winner, line}] or [null] ([None]). *)
Definition checkWinner (b : Board) : completion (option (mark * line)) :=
  firstWinner b directions.

(** ** [isDraw] *)

Definition isDraw (b : Board) : completion bool :=
  if forallb (fun c : cell => bool_decide (c ≠ None)) (concat b) then
    let! w := checkWinner b in
    Return (negb (bool_decide (is_Some w)))
  else Return false.

(** ** [simpleAIMove] *)

(** [checkWinner(board)?.winner === mk]. *)
Definition winnerIs (w : option (mark * line)) (mk : mark) : bool :=
  match w with
  | Some (m, _) => bool_decide (m = mk)
  | None => false
  end.

(** A counting loop [for (let i = 0; i < 3; ++i)] whose body may leave
    the enclosing function with [return]: [Some a] is that return. *)
Fixpoint forEach {A} (body : nat → M (option A)) (ixs : list nat) : M (option A) :=
  match ixs with
  | [] => ret None
  | i :: ixs' =>
      do! r := body i in
      match r with
      | Some a => ret (Some a)
      | None => forEach body ixs'
      end
  end.

(** The same loop with a body that only updates a local variable. *)
Fixpoint forAcc {S} (body : nat → S → M S) (ixs : list nat) (s : S) : M S :=
  match ixs with
  | [] => ret s
  | i :: ixs' => do! s' := body i s in forAcc body ixs' s'
  end.

(** The body shared by the first two double loops: put [mk] on a [null]
    cell, test for a win of [mk], and take the mark off again on both
    paths. *)
Definition tryCell (mk : mark) (i j : nat) : M (option coord) :=
  do! v := rd i j in
  if decide (v = Null) then
    do! _ := wr i j (Some mk) in
    do! w := lift checkWinner in
    if winnerIs w mk then
      do! _ := wr i j None in
      ret (Some (i, j))
    else
      do! _ := wr i j None in
      ret None
  else ret None.

Definition scanBoard (mk : mark) : M (option coord) :=
  forEach (fun i => forEach (fun j => tryCell mk i j) (seq 0 3)) (seq 0 3).

(** The last double loop, which pushes the [null] cells on [empties]. *)
Definition collectEmpties : M (list coord) :=
  forAcc (fun i acc =>
    forAcc (fun j acc =>
      do! v := rd i j in
      ret (if decide (v = Null) then acc ++ [(i, j)] else acc))
      (seq 0 3) acc)
    (seq 0 3) [].

(** [xs[k]] for a number [k] that is an integer. *)
Definition jsIndex {A} (xs : list A) (k : Z) : option A :=
  if (k <? 0)%Z then None else xs !! Z.to_nat k.

(** ** Numbers

    [Math.random() * empties.length] multiplies two numbers, which are
    IEEE 754 binary64 values: the result is the exact product rounded to
    the nearest binary64 value, a tie going to the even significand.
    Numbers are modelled by the rationals they stand for.  [binary64 x]
    says that [x] is the value of a finite binary64 number, and
    [round64 x] is the binary64 value nearest to [x].  The products taken
    here are below the length of a list, so overflow is left out. *)

(** The exponent of [x > 0], the [k] with [2 ^ k <= x < 2 ^ (k + 1)]. *)
Definition ilog2 (x : Q) : Z :=
  let d := (Z.log2 (Qnum x) - Z.log2 (Zpos (Qden x)))%Z in
  if Qle_bool (2 ^ d) x then d else (d - 1)%Z.

(** The integer nearest to [q], the even one of the two at a tie. *)
Definition roundEven (q : Q) : Z :=
  let f := Qfloor q in
  match (q - inject_Z f ?= 1 # 2)%Q with
  | Lt => f
  | Gt => (f + 1)%Z
  | Eq => if Z.even f then f else (f + 1)%Z
  end.

(** [x] rounded to a significand of 53 bits.  The exponent of the last
    bit is [e - 52], with [e] the exponent of [x], and is never below
    -1074, that of the subnormal numbers. *)
Definition round64 (x : Q) : Q :=
  match (x ?= 0)%Q with
  | Eq => 0%Q
  | Gt =>
      let e := Z.max (ilog2 x) (-1022) in
      (inject_Z (roundEven (x * 2 ^ (52 - e))) * 2 ^ (e - 52))%Q
  | Lt =>
      let e := Z.max (ilog2 (- x)) (-1022) in
      (- (inject_Z (roundEven (- x * 2 ^ (52 - e))) * 2 ^ (e - 52)))%Q
  end.

(** The finite binary64 values: [m * 2 ^ e] with a significand [m] of at
    most 53 bits and [e] between -1074 and 971. *)
Definition binary64 (x : Q) : Prop :=
  ∃ m e : Z, (Z.abs m < 2 ^ 53)%Z ∧ (-1074 ≤ e ≤ 971)%Z ∧
             (x == inject_Z m * 2 ^ e)%Q.

(** The value of a finite float of the Standard Library, whose
    [SFmul 53 1024] is the binary64 product, and the comparison of that
    product with [round64]. *)
Definition SF2Q (f : spec_float) : Q :=
  match f with
  | S754_finite s m e => ((if s then -1 else 1) * inject_Z (Zpos m) * 2 ^ e)%Q
  | _ => 0%Q
  end.

Definition mulAgrees (a b : spec_float) : bool :=
  Qeq_bool (SF2Q (SFmul 53 1024 a b)) (round64 (SF2Q a * SF2Q b)).

(** 0.5714285714285714, the binary64 value nearest to 4/7. *)
Definition nearFourSevenths : Q := 5146971002709138 # 9007199254740992.

(** [Math.floor(Math.random() * n)], with [rnd] the value of
    [Math.random()] and [n] the length of [empties]: the product is the
    binary64 one, the exact product rounded by [round64], and
    [Math.floor] is exact. *)
Definition randomIndex (rnd : Q) (n : nat) : Z :=
  Qfloor (round64 (rnd * inject_Z (Z.of_nat n))).

(** [simpleAIMove(board, aiMark, humanMark)].  [rnd] is the value
    [Math.random()] yields if it is called.  The result is the returned
    value, [Some (i, j)] for the array [[i, j]] and [None] for
    [undefined], together with the board as the call leaves it. *)
Definition simpleAIMove (board : Board) (aiMark humanMark : mark) (rnd : Q)
  : completion (option coord) * Board :=
  (do! r1 := scanBoard aiMark in
   match r1 with
   | Some c => ret (Some c)
   | None =>
       do! r2 := scanBoard humanMark in
       match r2 with
       | Some c => ret (Some c)
       | None =>
           do! v := rd 1 1 in
           if decide (v = Null) then ret (Some (1, 1))
           else
             do! empties := collectEmpties in
             ret (jsIndex empties (randomIndex rnd (length empties)))
       end
   end) board.

(** ** The outcome of a board

    Both handlers of the component run the same chain on the board they
    have just built: [const winner = checkWinner(newBoard); if (winner)
    ... else if (isDraw(newBoard)) ... else ...].  [evaluate] is that
    chain; its three results are the outcomes the specification names. *)
Inductive GameOutcome : Set :=
| InProgress
| Win (m : mark) (l : line)
| Draw.

Definition evaluate (b : Board) : completion GameOutcome :=
  let! winner := checkWinner b in
  match winner with
  | Some (m, l) => Return (Win m l)
  | None =>
      let! d := isDraw b in
      Return (if d : bool then Draw else InProgress)
  end.

(** ** The component [App] *)

Module App.

(** The values of [mode] other than [null]: ['ai'] and ['two-player']. *)
Inductive gameMode : Set := ai | twoPlayer.

#[global] Instance gameMode_eq_dec : EqDecision gameMode.
Proof. solve_decision. Defined.

(** The six state variables of the component. *)
Record state : Set := mkState {
  board : Board;
  xIsNext : bool;
  mode : option gameMode;
  status : string;
  winnerInfo : option (mark * line);
  disableBoard : bool
}.

(** The callback [() => aiMove(newBoard)] handed to [setTimeout]: the
    board it was created with, and the [winnerInfo] of the render whose
    [aiMove] it closes over. *)
Record timer : Set := mkTimer {
  seenWinnerInfo : option (mark * line);
  currentBoard : Board
}.

(** How a handler ends: normally, with the state as its setters leave
    it and the timers it has started; or with an uncaught [TypeError],
    with the state as the setters called before it leave it.  A handler
    returns no value. *)
Inductive outcome : Set :=
| Completed (s : state) (started : list timer)
| Threw (s : state).

Definition initialState : state :=
  mkState getInitialBoard true None "Choose Game Mode" None false.

Definition setBoard (s : state) (b : Board) : state :=
  mkState b (xIsNext s) (mode s) (status s) (winnerInfo s) (disableBoard s).
Definition setXIsNext (s : state) (x : bool) : state :=
  mkState (board s) x (mode s) (status s) (winnerInfo s) (disableBoard s).
Definition setMode (s : state) (m : option gameMode) : state :=
  mkState (board s) (xIsNext s) m (status s) (winnerInfo s) (disableBoard s).
Definition setStatus (s : state) (t : string) : state :=
  mkState (board s) (xIsNext s) (mode s) t (winnerInfo s) (disableBoard s).
Definition setWinnerInfo (s : state) (w : option (mark * line)) : state :=
  mkState (board s) (xIsNext s) (mode s) (status s) w (disableBoard s).
Definition setDisableBoard (s : state) (d : bool) : state :=
  mkState (board s) (xIsNext s) (mode s) (status s) (winnerInfo s) d.

Definition markString (m : mark) : string :=
  match m with
  | X => "X"
  | O => "O"
  end.

(** [board[row][col]] for the numbers a caller passes. *)
Definition readCellAt (b : Board) (row col : Z) : completion value :=
  match jsIndex b row with
  | None => TypeError
  | Some r =>
      Return (match jsIndex r col with
              | None => Undefined
              | Some c => cell_value c
              end)
  end.

(** [handleClick(row, col)].  The copy [board.map(r => r.slice())] is
    the value [board s] itself: the assignment builds a new list and
    leaves the one in the state alone. *)
Definition handleClick (s : state) (row col : Z) : outcome :=
  if disableBoard s then Completed s []
  else
    match readCellAt (board s) row col with
    | TypeError => Threw s
    | Return v =>
        if bool_decide (v ≠ Null) then Completed s []
        else if bool_decide (is_Some (winnerInfo s)) then Completed s []
        else
          match mode s with
          | None => Completed s []
          | Some md =>
              if bool_decide (md = ai) && negb (xIsNext s) then Completed s []
              else
                match writeCell (board s) (Z.to_nat row) (Z.to_nat col)
                                (Some (if xIsNext s then X else O)) with
                | TypeError => Threw s
                | Return newBoard =>
                    let s1 := setBoard s newBoard in
                    match evaluate newBoard with
                    | TypeError => Threw s1
                    | Return (Win m l) =>
                        Completed
                          (setDisableBoard
                             (setStatus (setWinnerInfo s1 (Some (m, l)))
                                        (String.append "Winner: " (markString m)))
                             true) []
                    | Return Draw =>
                        Completed
                          (setDisableBoard
                             (setStatus (setWinnerInfo s1 None) "Draw!") true) []
                    | Return InProgress =>
                        match md with
                        | ai =>
                            Completed
                              (setDisableBoard (setXIsNext s1 false) true)
                              [mkTimer (winnerInfo s) newBoard]
                        | twoPlayer =>
                            Completed
                              (setStatus
                                 (setXIsNext s1 (negb (xIsNext s)))
                                 (String.append "Next: "
                                    (if negb (xIsNext s) then "X" else "O")))
                              []
                        end
                    end
                end
          end
    end.

(** [aiMove(currentBoard)], run by a timer [t] when the state is [s].
    Destructuring the result of [simpleAIMove] throws when that result
    is [undefined]. *)
Definition aiMove (s : state) (t : timer) (rnd : Q) : outcome :=
  if bool_decide (is_Some (seenWinnerInfo t)) then Completed s []
  else
    match simpleAIMove (currentBoard t) O X rnd with
    | (TypeError, _) => Threw s
    | (Return None, _) => Threw s
    | (Return (Some (aiRow, aiCol)), cb) =>
        match writeCell cb aiRow aiCol (Some O) with
        | TypeError => Threw s
        | Return newBoard =>
            let s1 := setBoard s newBoard in
            match evaluate newBoard with
            | TypeError => Threw s1
            | Return (Win m l) =>
                Completed
                  (setDisableBoard
                     (setStatus (setWinnerInfo s1 (Some (m, l)))
                                (String.append "Winner: " (markString m)))
                     true) []
            | Return Draw =>
                Completed
                  (setDisableBoard
                     (setStatus (setWinnerInfo s1 None) "Draw!") true) []
            | Return InProgress =>
                Completed
                  (setDisableBoard
                     (setStatus (setXIsNext s1 true) "Next: X") false) []
            end
        end
    end.

Definition handleStart (s : state) (modeVal : gameMode) : state :=
  setStatus
    (setDisableBoard
       (setWinnerInfo
          (setMode (setXIsNext (setBoard s getInitialBoard) true) (Some modeVal))
          None)
       false)
    "Next: X".

Definition handleRestart (s : state) : state :=
  setStatus
    (setDisableBoard
       (setWinnerInfo (setXIsNext (setBoard s getInitialBoard) true) None)
       false)
    (if bool_decide (is_Some (mode s)) then "Next: X" else "Choose Game Mode").

(** The running page: the component's state and the timers that have
    not fired yet. *)
Record page : Set := mkPage {
  app : state;
  pending : list timer
}.

Inductive event : Set :=
| Click (row col : Z)
| Start (modeVal : gameMode)
| Restart
| Fire (k : nat) (rnd : Q).

Definition settle (o : outcome) (timers : list timer) : page :=
  match o with
  | Completed s started => mkPage s (timers ++ started)
  | Threw s => mkPage s timers
  end.

Definition step (p : page) (e : event) : page :=
  match e with
  | Click row col => settle (handleClick (app p) row col) (pending p)
  | Start modeVal => mkPage (handleStart (app p) modeVal) (pending p)
  | Restart => mkPage (handleRestart (app p)) (pending p)
  | Fire k rnd =>
      match pending p !! k with
      | None => p
      | Some t => settle (aiMove (app p) t rnd) (delete k (pending p))
      end
  end.

Inductive reachable : page → Prop :=
| reach_init : reachable (mkPage initialState [])
| reach_step p e : reachable p → reachable (step p e).

End App.

(** * Vocabulary of the statements *)

Import App.

(** ** Boards, cells and lines *)

(** Every board the component builds has three rows of three cells:
    [getInitialBoard] makes one, and the handlers copy it row by row and
    assign to one existing cell. *)
Definition wf_board (b : Board) : Prop :=
  length b = 3 ∧ Forall (λ r : list cell, length r = 3) b.

Ltac wf_concrete := split; [reflexivity|repeat constructor].

(** The content of the cell at [p], if the board has such a cell. *)
Definition cellAt (b : Board) (p : coord) : option cell :=
  b !! p.1 ≫= λ r : list cell, r !! p.2.

(** The cell at [p] exists and holds [null]. *)
Definition EmptyCell (b : Board) (p : coord) : Prop := cellAt b p = Some None.

#[global] Instance EmptyCell_dec b p : Decision (EmptyCell b p).
Proof. unfold EmptyCell. apply _. Defined.

(** The cell at [p] exists and holds the mark [m]. *)
Definition holds (b : Board) (p : coord) (m : mark) : Prop :=
  cellAt b p = Some (Some m).

(** The three cells of [l] hold the mark [m]. *)
Definition lineHolds (b : Board) (l : line) (m : mark) : Prop :=
  holds b l.1.1 m ∧ holds b l.1.2 m ∧ holds b l.2 m.

Definition inRange (p : coord) : Prop := p.1 < 3 ∧ p.2 < 3.

Definition lineInRange (l : line) : Prop :=
  inRange l.1.1 ∧ inRange l.1.2 ∧ inRange l.2.

Definition row (i : nat) : line := ((i, 0), (i, 1), (i, 2)).
Definition column (j : nat) : line := ((0, j), (1, j), (2, j)).
Definition diagonals : list line :=
  [((0, 0), (1, 1), (2, 2)); ((0, 2), (1, 1), (2, 0))].

(** The board [b] with the cell at [p] replaced: the hypothetical
    placement of the specification. *)
Definition place (b : Board) (p : coord) (c : cell) : Board :=
  match b !! p.1 with
  | Some r => <[p.1 := <[p.2 := c]> r]> b
  | None => b
  end.

(** Row-major order of the cells: row first, then column. *)
Definition rowMajorLt (q p : coord) : Prop :=
  q.1 < p.1 ∨ (q.1 = p.1 ∧ q.2 < p.2).

(** The cells in the order the double loops visit them. *)
Definition cells : list coord :=
  i ← seq 0 3; j ← seq 0 3; [(i, j)].

(** ** The tiers of the move selection *)

(** Putting [mk] on the Empty cell [p] makes [checkWinner] report a win
    of [mk]: the test of the first two tiers. *)
Definition winsAt (b : Board) (mk : mark) (p : coord) : Prop :=
  EmptyCell b p ∧ ∃ l, checkWinner (place b p (Some mk)) = Return (Some (mk, l)).

Definition winsAtb (b : Board) (mk : mark) (p : coord) : bool :=
  bool_decide (EmptyCell b p) &&
  match checkWinner (place b p (Some mk)) with
  | Return w => winnerIs w mk
  | TypeError => false
  end.

(** The first value a function yields along a list. *)
Fixpoint firstHit {A B} (f : A → option B) (xs : list A) : option B :=
  match xs with
  | [] => None
  | x :: xs' =>
      match f x with
      | Some y => Some y
      | None => firstHit f xs'
      end
  end.

Definition firstWinsAt (b : Board) (mk : mark) : option coord :=
  firstHit (λ p, if winsAtb b mk p then Some p else None) cells.

(** The [null] cells in the order the last double loop pushes them. *)
Definition emptiesOf (b : Board) : list coord :=
  i ← seq 0 3; j ← seq 0 3; if decide (EmptyCell b (i, j)) then [(i, j)] else [].

(** The value [simpleAIMove] is shown to return on a board of three by
    three ([simpleAIMove_run]). *)
Definition aiChoice (b : Board) (aiMark humanMark : mark) (rnd : Q) : option coord :=
  match firstWinsAt b aiMark with
  | Some c => Some c
  | None =>
      match firstWinsAt b humanMark with
      | Some c => Some c
      | None =>
          if decide (EmptyCell b (1, 1)) then Some (1, 1)
          else jsIndex (emptiesOf b) (randomIndex rnd (length (emptiesOf b)))
      end
  end.

(** ** Outcomes *)

(** Every one of the nine cells holds a mark. *)
Definition full (b : Board) : Prop := ∀ p, inRange p → ∃ m, holds b p m.

(** No line is held by a mark. *)
Definition noLine (b : Board) : Prop :=
  ∀ l m, l ∈ directions → ¬ lineHolds b l m.

(** The three classes the handlers tell apart with [checkWinner] and
    [isDraw]. *)
Definition won (b : Board) : Prop :=
  ∃ m l, checkWinner b = Return (Some (m, l)).
Definition drawn (b : Board) : Prop := isDraw b = Return true.
Definition inProgress (b : Board) : Prop :=
  checkWinner b = Return None ∧ isDraw b = Return false.

(** ** Pages *)

(** The board is three by three, and a board whose game is over is
    disabled. *)
Definition consistent (s : state) : Prop :=
  wf_board (board s) ∧
  (evaluate (board s) ≠ Return InProgress → disableBoard s = true).

Definition pageInv (p : page) : Prop :=
  consistent (app p) ∧ Forall (λ t, wf_board (currentBoard t)) (pending p).

Definition outcomeInv (o : outcome) : Prop :=
  match o with
  | Completed s started =>
      consistent s ∧ Forall (λ t, wf_board (currentBoard t)) started
  | Threw s => consistent s
  end.

(** ** Positions used as examples *)

(** Row 0 and column 0 are both held by X. *)
Definition twoLines : Board :=
  [[Some X; Some X; Some X]; [Some X; Some O; Some O]; [Some X; Some O; None]].

(** O, to move, can complete the anti-diagonal at (0,2) and row 1 at
    (1,2); X threatens (0,2) too. *)
Definition winNowBoard : Board :=
  [[Some X; Some X; None]; [Some O; Some O; None]; [Some O; Some X; Some X]].

(** X holds (0,0), (0,2) and (1,1), O holds (1,0) and (2,1), O is to
    move.  O has no winning cell; X would win at (0,1), at (2,0) and at
    (2,2). *)
Definition threeThreats : Board :=
  [[Some X; None; Some X]; [Some O; Some X; None]; [None; Some O; None]].

(** X threatens (2,2) only; O has no winning cell. *)
Definition oneThreat : Board :=
  [[Some X; Some O; None]; [None; Some X; None]; [None; None; None]].

(** The board after X has opened at (0,0). *)
Definition firstMove : Board :=
  [[Some X; None; None]; [None; None; None]; [None; None; None]].

(** A finished game without a line. *)
Definition drawnBoard : Board :=
  [[Some X; Some O; Some X]; [Some X; Some O; Some O]; [Some O; Some X; Some X]].

(** The board of a game X has won; two O and four Empty cells. *)
Definition wonBoard : Board :=
  [[Some X; Some X; Some X]; [Some O; Some O; None]; [None; None; None]].

(** Neither player can win at once and the centre is taken: the move is
    drawn among the seven Empty cells. *)
Definition centreTaken : Board :=
  [[None; None; None]; [None; Some X; None]; [None; None; Some O]].

(** The page after "Two Player" and a click on (0,0). *)
Definition afterFirstClick : page :=
  step (step (mkPage initialState []) (Start twoPlayer)) (Click 0 0).

(** The page after X has won a two-player game along row 0. *)
Definition afterWin : page :=
  step (step (step (step afterFirstClick (Click 1 0)) (Click 0 1)) (Click 1 1))
       (Click 0 2).

(** The state of the page [afterWin]. *)
Definition wonState : state :=
  mkState wonBoard true (Some twoPlayer) "Winner: X"
          (Some (X, ((0, 0), (0, 1), (0, 2)))) true.

(** * The rest of the component *)

(** [handleSquareKey(row, col, e)], with [key] the value of [e.key]. *)
Definition handleSquareKey (s : state) (row col : Z) (key : string) : outcome :=
  if String.eqb key " " || String.eqb key "Enter" then handleClick s row col
  else Completed s [].

Definition COLOR_PRIMARY : string := "#1e90ff".
Definition COLOR_ACCENT : string := "#32cd32".
Definition COLOR_SECONDARY : string := "#f5f5f5".

(** The properties of the button [renderSquare] builds.  Its two
    handlers are [handleClick(row, col)] and [handleSquareKey(row, col, e)]
    and its [tabIndex] is 0. *)
Record square : Set := mkSquare {
  className : string;
  key : string;
  ariaLabel : string;
  color : option string;
  background : string;
  borderColor : string;
  disabled : bool;
  children : value
}.

(** A number in a template literal. *)
Definition numberString (n : nat) : string :=
  NilEmpty.string_of_uint (Nat.to_uint n).

(** [winnerInfo && winnerInfo.line.some(([r, c]) => r === row && c === col)]. *)
Definition winnerSquare (w : option (mark * line)) (row col : nat) : bool :=
  match w with
  | None => false
  | Some (_, (p1, p2, p3)) =>
      existsb (λ p : coord, Nat.eqb p.1 row && Nat.eqb p.2 col) [p1; p2; p3]
  end.

(** [renderSquare(row, col)], called by the component with [row] and
    [col] in [[0, 1, 2]]. *)
Definition renderSquare (s : state) (row col : nat) : completion square :=
  let! mark := readCell (board s) row col in
  let hit := winnerSquare (winnerInfo s) row col in
  Return
    (mkSquare
       (String.append "ttt-square" (if hit then " winner" else ""))
       (String.append (numberString row) (String.append "-" (numberString col)))
       (String.append "Row "
          (String.append (numberString (row + 1))
             (String.append ", Col "
                (String.append (numberString (col + 1))
                   (String.append ", "
                      (match mark with
                       | Str m => markString m
                       | _ => "empty"
                       end))))))
       (if bool_decide (mark = Str X) then Some COLOR_PRIMARY
        else if bool_decide (mark = Str O) then Some COLOR_ACCENT
        else None)
       (if hit then (if bool_decide (mark = Str X) then "#eaf6ff" else "#eaffea")
        else COLOR_SECONDARY)
       (if hit then (if bool_decide (mark = Str X) then COLOR_PRIMARY else COLOR_ACCENT)
        else "#e0e0e0")
       (disableBoard s || bool_decide (mark ≠ Null) ||
        bool_decide (is_Some (winnerInfo s)))
       mark).

(** ** Vocabulary for the component *)

(** The number of cells that hold the mark [m]. *)
Definition markCount (m : mark) (b : Board) : nat :=
  sum_list ((λ c : cell, if bool_decide (c = Some m) then 1 else 0) <$> concat b).

(** The mark [handleClick] places: [xIsNext ? 'X' : 'O']. *)
Definition nextMark (s : state) : mark := if xIsNext s then X else O.

(** The click on [(row, col)] passes every early return of
    [handleClick]. *)
Definition accepts (s : state) (row col : Z) : Prop :=
  disableBoard s = false ∧ winnerInfo s = None ∧
  (0 ≤ row < 3)%Z ∧ (0 ≤ col < 3)%Z ∧
  EmptyCell (board s) (Z.to_nat row, Z.to_nat col) ∧
  ∃ md, mode s = Some md ∧ (md = ai → xIsNext s = true).

(** The three cells of a line. *)
Definition lineCells (l : line) : list coord := [l.1.1; l.1.2; l.2].

(** X has as many marks as O, or one more. *)
Definition balanced (b : Board) : Prop :=
  markCount X b = markCount O b ∨ markCount X b = S (markCount O b).

(** What holds of the state of every page the handlers can reach, beyond
    [consistent]: the marks are balanced, an enabled board has as many X
    as O exactly when X is to move, and against the bot an enabled board
    awaits X. *)
Definition fair (s : state) : Prop :=
  consistent s ∧
  balanced (board s) ∧
  (disableBoard s = false →
   markCount X (board s) = (if xIsNext s then 0 else 1) + markCount O (board s)) ∧
  (disableBoard s = false → mode s = Some ai → xIsNext s = true).

(** What holds of every pending timer: its board is three by three, in
    progress, with X one mark ahead, and the [winnerInfo] its [aiMove]
    sees is [null]. *)
Definition armed (t : timer) : Prop :=
  wf_board (currentBoard t) ∧
  evaluate (currentBoard t) = Return InProgress ∧
  markCount X (currentBoard t) = S (markCount O (currentBoard t)) ∧
  seenWinnerInfo t = None.

Definition fairPage (p : page) : Prop :=
  fair (app p) ∧ Forall armed (pending p).

Definition fairOutcome (o : outcome) : Prop :=
  match o with
  | Completed s started => fair s ∧ Forall armed started
  | Threw s => fair s
  end.

(** A two-player game two clicks old, O at (1,1). *)
Definition afterSecondClick : page := step afterFirstClick (Click 1 1).

(** Against the bot: X has opened at (0,0) and the reply is pending. *)
Definition awaitingBot : page :=
  step (step (mkPage initialState []) (Start ai)) (Click 0 0).

(** X holds (0,0) and (2,2), O holds (0,1) and (1,1): O completes column
    1 at (2,1). *)
Definition botWins : Board :=
  [[Some X; Some O; None]; [None; Some O; None]; [None; None; Some X]].

(** Two-player game, X to move and about to complete row 0 at (0,2). *)
Definition aboutToWin : state :=
  mkState [[Some X; Some X; None]; [Some O; Some O; None]; [None; None; None]]
          true (Some twoPlayer) "Next: X" None false.

(** Against the bot, X to move on an empty board. *)
Definition botGame : state := handleStart initialState ai.

(** The page of a two-player game played to a draw. *)
Definition drawnPage : page :=
  foldl step (mkPage initialState [])
    [Start twoPlayer; Click 0 0; Click 0 1; Click 0 2; Click 1 1; Click 1 0;
     Click 1 2; Click 2 1; Click 2 0; Click 2 2].

(** Against the bot: X lets O win, but before the bot's winning reply
    arrives restarts and opens a new game at (0,0).  The bot has since
    won the old game; the timer of the new game is still pending. *)
Definition botHasWon : page :=
  foldl step (mkPage initialState [])
    [Start ai; Click 0 0; Fire 0 (1 # 2); Click 0 1; Fire 0 (1 # 2);
     Click 2 2; Restart; Click 0 0; Fire 0 (1 # 2)].

(** The state once that timer has fired. *)
Definition lockedState : state :=
  mkState [[Some X; None; None]; [None; Some O; None]; [None; None; None]]
          true (Some ai) "Next: X" (Some (O, ((0, 2), (1, 1), (2, 0)))) false.

(** * Properties *)

(** ** Boards and cells *)

Section Cells.
Context (b : Board).

Lemma wf_row i r : wf_board b → b !! i = Some r → length r = 3.
Proof.
  intros [_ Hrows] Hi. rewrite Forall_forall in Hrows.
  apply Hrows. eapply list_elem_of_lookup_2, Hi.
Qed.

Lemma cellAt_is_Some p : wf_board b → inRange p → is_Some (cellAt b p).
Proof.
  intros Hwf [Hi Hj]. unfold cellAt.
  destruct (lookup_lt_is_Some_2 b p.1) as [r Hr]; [destruct Hwf; lia|].
  rewrite Hr. simpl. apply lookup_lt_is_Some_2.
  rewrite (wf_row _ _ Hwf Hr). exact Hj.
Qed.

Lemma cellAt_inRange p c : wf_board b → cellAt b p = Some c → inRange p.
Proof.
  intros Hwf. unfold cellAt, inRange.
  destruct (b !! p.1) as [r|] eqn:Hr; simpl; [|done].
  intros Hc. split.
  - apply lookup_lt_Some in Hr. destruct Hwf as [Hlen _]. lia.
  - apply lookup_lt_Some in Hc. rewrite (wf_row _ _ Hwf Hr) in Hc. exact Hc.
Qed.

Lemma readCell_cellAt i j c :
  cellAt b (i, j) = Some c → readCell b i j = Return (cell_value c).
Proof.
  unfold cellAt, readCell. simpl.
  destruct (b !! i) as [r|]; simpl; [|done]. by intros ->.
Qed.

Lemma readCell_Str i j m :
  readCell b i j = Return (Str m) ↔ holds b (i, j) m.
Proof.
  unfold holds, cellAt, readCell. simpl.
  destruct (b !! i) as [r|]; simpl; [|split; done].
  destruct (r !! j) as [[m'|]|]; simpl; split; congruence.
Qed.

Lemma readCell_Null i j :
  readCell b i j = Return Null ↔ EmptyCell b (i, j).
Proof.
  unfold EmptyCell, cellAt, readCell. simpl.
  destruct (b !! i) as [r|]; simpl; [|split; done].
  destruct (r !! j) as [[m'|]|]; simpl; split; congruence.
Qed.

Lemma writeCell_place i j c c0 :
  cellAt b (i, j) = Some c0 → writeCell b i j c = Return (place b (i, j) c).
Proof.
  unfold cellAt, writeCell, place. simpl.
  by destruct (b !! i) as [r|].
Qed.

Lemma place_wf p c : wf_board b → wf_board (place b p c).
Proof.
  intros Hwf. unfold place.
  destruct (b !! p.1) as [r|] eqn:Hr; [|done].
  destruct Hwf as [Hlen Hrows]. split.
  - by rewrite length_insert.
  - apply Forall_insert; [done|].
    rewrite length_insert. by apply (wf_row p.1); [split|].
Qed.

Lemma cellAt_place_eq p c c0 :
  cellAt b p = Some c0 → cellAt (place b p c) p = Some c.
Proof.
  unfold cellAt, place.
  destruct (b !! p.1) as [r|] eqn:Hr; simpl; [|done].
  intros Hc. rewrite list_lookup_insert_eq by (by eapply lookup_lt_Some).
  simpl. apply list_lookup_insert_eq. by eapply lookup_lt_Some.
Qed.

Lemma cellAt_place_ne p q c :
  p ≠ q → cellAt (place b p c) q = cellAt b q.
Proof.
  intros Hne. unfold cellAt, place.
  destruct (b !! p.1) as [r|] eqn:Hr; [|done].
  destruct (decide (p.1 = q.1)) as [He|Hn].
  - rewrite <- He, Hr, list_lookup_insert_eq by (by eapply lookup_lt_Some).
    simpl. apply list_lookup_insert_ne.
    intros Hj. apply Hne. destruct p, q. simpl in *. congruence.
  - by rewrite list_lookup_insert_ne.
Qed.

(** Taking the mark off again gives back the board one started with. *)
Lemma place_undo p c :
  EmptyCell b p → place (place b p c) p None = b.
Proof.
  unfold EmptyCell, cellAt, place.
  destruct (b !! p.1) as [r|] eqn:Hr; simpl; [|done].
  intros Hc. rewrite list_lookup_insert_eq by (by eapply lookup_lt_Some).
  rewrite list_insert_insert_eq, list_insert_insert_eq.
  rewrite (list_insert_id r) by done. by apply list_insert_id.
Qed.

End Cells.

(** ** [checkWinner] *)

Lemma directions_inRange : Forall lineInRange directions.
Proof. unfold directions, lineInRange, inRange. repeat constructor. Qed.

Section Lines.
Context (b : Board).

Lemma lineWinner_Some l m :
  lineWinner b l = Return (Some m) ↔ lineHolds b l m.
Proof.
  destruct l as [[[i1 j1] [i2 j2]] [i3 j3]].
  unfold lineWinner, lineHolds. simpl.
  rewrite <- !readCell_Str.
  destruct (readCell b i1 j1) as [[| |m1]|]; simpl;
    try (split; [done|intros (H1 & _); congruence]).
  destruct (readCell b i2 j2) as [v2|]; simpl;
    [|split; [done|intros (_ & H2 & _); congruence]].
  destruct (decide (Str m1 = v2)) as [<-|Hne];
    [|split; [done|intros (H1 & H2 & _); congruence]].
  destruct (readCell b i3 j3) as [v3|]; simpl;
    [|split; [done|intros (_ & _ & H3); congruence]].
  destruct (decide (Str m1 = v3)) as [<-|Hne3].
  - split; [intros [= ->]; done|intros (H1 & _); congruence].
  - split; [done|intros (H1 & H2 & H3); congruence].
Qed.

Lemma lineWinner_total l :
  wf_board b → lineInRange l → ∃ w, lineWinner b l = Return w.
Proof.
  intros Hwf (H1 & H2 & H3).
  destruct l as [[[i1 j1] [i2 j2]] [i3 j3]]. simpl in *.
  destruct (cellAt_is_Some b _ Hwf H1) as [c1 Hc1].
  destruct (cellAt_is_Some b _ Hwf H2) as [c2 Hc2].
  destruct (cellAt_is_Some b _ Hwf H3) as [c3 Hc3].
  unfold lineWinner. simpl.
  rewrite (readCell_cellAt _ _ _ _ Hc1). simpl.
  destruct c1 as [m1|]; simpl; [|eauto].
  rewrite (readCell_cellAt _ _ _ _ Hc2). simpl.
  destruct (decide _); [|eauto].
  rewrite (readCell_cellAt _ _ _ _ Hc3). simpl. eauto.
Qed.

Lemma lineWinner_None l :
  wf_board b → lineInRange l →
  lineWinner b l = Return None ↔ ∀ m, ¬ lineHolds b l m.
Proof.
  intros Hwf Hl. split.
  - intros Hn m Hm. apply lineWinner_Some in Hm. congruence.
  - intros Hno. destruct (lineWinner_total l Hwf Hl) as [[m|] Hw]; [|done].
    exfalso. eapply Hno, lineWinner_Some, Hw.
Qed.

(** The loop returns the line at the first index whose line is held. *)
Lemma firstWinner_Some ls m l :
  wf_board b → Forall lineInRange ls →
  firstWinner b ls = Return (Some (m, l)) ↔
  ∃ k, ls !! k = Some l ∧ lineHolds b l m ∧
       ∀ k' l' m', k' < k → ls !! k' = Some l' → ¬ lineHolds b l' m'.
Proof.
  intros Hwf Hls. induction Hls as [|l0 ls Hl0 Hls IH]; simpl.
  - split; [done|]. by intros (k & Hk & _).
  - destruct (lineWinner_total l0 Hwf Hl0) as [w Hw]. rewrite Hw. simpl.
    destruct w as [m0|].
    + apply lineWinner_Some in Hw. split.
      * intros [= <- <-]. exists 0. split_and!; [done..|]. intros; lia.
      * intros (k & Hk & Hm & Hfirst). destruct k as [|k].
        -- simpl in Hk. injection Hk as <-.
           destruct Hw as [Hw _], Hm as [Hm _]. unfold holds in *. congruence.
        -- exfalso. apply (Hfirst 0 l0 m0); [lia|done..].
    + rewrite IH. pose proof (proj1 (lineWinner_None l0 Hwf Hl0) Hw) as Hno.
      split.
      * intros (k & Hk & Hm & Hfirst). exists (S k). split_and!; [done..|].
        intros [|k'] l' m' Hlt Hk'; simpl in Hk'.
        -- injection Hk' as <-. apply Hno.
        -- apply (Hfirst k'); [lia|done].
      * intros (k & Hk & Hm & Hfirst). destruct k as [|k].
        -- simpl in Hk. injection Hk as <-. by destruct (Hno m).
        -- exists k. split_and!; [done..|].
           intros k' l' m' Hlt Hk'. apply (Hfirst (S k')); [lia|done].
Qed.

Lemma firstWinner_None ls :
  wf_board b → Forall lineInRange ls →
  firstWinner b ls = Return None ↔
  ∀ l m, l ∈ ls → ¬ lineHolds b l m.
Proof.
  intros Hwf Hls. induction Hls as [|l0 ls Hl0 Hls IH]; simpl.
  - split; [|done]. intros _ l m Hin. by apply elem_of_nil in Hin.
  - destruct (lineWinner_total l0 Hwf Hl0) as [w Hw]. rewrite Hw. simpl.
    destruct w as [m0|].
    + apply lineWinner_Some in Hw. split; [done|].
      intros Hno. destruct (Hno l0 m0); [left|done].
    + rewrite IH. pose proof (proj1 (lineWinner_None l0 Hwf Hl0) Hw) as Hno.
      split.
      * intros Hrest l m [->|Hin]%elem_of_cons; [apply Hno|by apply Hrest].
      * intros Hall l m Hin. apply Hall. by right.
Qed.

Lemma firstWinner_total ls :
  wf_board b → Forall lineInRange ls → ∃ w, firstWinner b ls = Return w.
Proof.
  intros Hwf Hls. induction Hls as [|l0 ls Hl0 Hls IH]; simpl; [eauto|].
  destruct (lineWinner_total l0 Hwf Hl0) as [[m|] ->]; simpl; eauto.
Qed.

Lemma checkWinner_total : wf_board b → ∃ w, checkWinner b = Return w.
Proof. intros Hwf. apply firstWinner_total, directions_inRange. exact Hwf. Qed.

End Lines.

(** ** Loops *)

Lemma firstHit_app {A B} (f : A → option B) xs ys :
  firstHit f (xs ++ ys) =
  match firstHit f xs with
  | Some y => Some y
  | None => firstHit f ys
  end.
Proof. induction xs as [|x xs IH]; simpl; [done|]. by destruct (f x). Qed.

Lemma firstHit_row {A B C} (g : A * B → option C) (x : A) (ys : list B) :
  firstHit (λ y, g (x, y)) ys = firstHit g (ys ≫= λ y, [(x, y)]).
Proof.
  induction ys as [|y ys IHy]; [done|].
  rewrite bind_cons. simpl. by rewrite IHy.
Qed.

Lemma firstHit_nested {A B C} (g : A * B → option C) (xs : list A) (ys : list B) :
  firstHit (λ x, firstHit (λ y, g (x, y)) ys) xs =
  firstHit g (x ← xs; y ← ys; [(x, y)]).
Proof.
  induction xs as [|x xs IH]; [done|].
  rewrite bind_cons, firstHit_app, <- IH, <- firstHit_row. done.
Qed.

(** Where the first hit of a test is: at an index with no hit before it. *)
Lemma firstHit_test_Some {A} (t : A → bool) xs x :
  firstHit (λ y, if t y then Some y else None) xs = Some x ↔
  ∃ k, xs !! k = Some x ∧ t x = true ∧
       ∀ k' y, k' < k → xs !! k' = Some y → t y = false.
Proof.
  induction xs as [|x0 xs IH]; simpl.
  - split; [done|]. by intros (k & Hk & _).
  - destruct (t x0) eqn:Ht.
    + split.
      * intros [= <-]. exists 0. split_and!; [done..|]. intros; lia.
      * intros (k & Hk & Hx & Hfirst). destruct k as [|k].
        -- simpl in Hk. congruence.
        -- specialize (Hfirst 0 x0). simpl in Hfirst.
           rewrite Hfirst in Ht; [done|lia|done].
    + rewrite IH. split.
      * intros (k & Hk & Hx & Hfirst). exists (S k). split_and!; [done..|].
        intros [|k'] y Hlt Hy; simpl in Hy.
        -- congruence.
        -- apply (Hfirst k'); [lia|done].
      * intros (k & Hk & Hx & Hfirst). destruct k as [|k].
        -- simpl in Hk. congruence.
        -- exists k. split_and!; [done..|].
           intros k' y Hlt Hy. apply (Hfirst (S k')); [lia|done].
Qed.

Lemma firstHit_test_None {A} (t : A → bool) xs :
  firstHit (λ y, if t y then Some y else None) xs = None ↔
  ∀ y, y ∈ xs → t y = false.
Proof.
  induction xs as [|x0 xs IH]; simpl.
  - split; [|done]. intros _ y Hy. by apply elem_of_nil in Hy.
  - destruct (t x0) eqn:Ht.
    + split; [done|]. intros Hall. rewrite Hall in Ht; [done|left].
    + rewrite IH. split.
      * intros Hrest y [->|Hy]%elem_of_cons; [done|by apply Hrest].
      * intros Hall y Hy. apply Hall. by right.
Qed.

Section Loops.
Context {A : Type}.

(** A loop whose iterations all return leaves the board as every one
    of them leaves it. *)
Lemma forEach_frame (body : nat → M (option A)) ixs b r b' :
  (∀ i b0 r0 b1, body i b0 = (Return r0, b1) → b1 = b0) →
  forEach body ixs b = (Return r, b') → b' = b.
Proof.
  intros Hbody. revert b. induction ixs as [|i ixs IH]; intros b; simpl.
  - unfold ret. by intros [= _ <-].
  - unfold bind. destruct (body i b) as [[r0|] b1] eqn:Hi; [|done].
    apply Hbody in Hi as ->.
    destruct r0 as [a|]; [unfold ret; by intros [= _ <-]|apply IH].
Qed.

Lemma forEach_run (body : nat → M (option A)) (f : nat → option A) ixs b :
  (∀ i, i ∈ ixs → body i b = (Return (f i), b)) →
  forEach body ixs b = (Return (firstHit f ixs), b).
Proof.
  induction ixs as [|i ixs IH]; intros Hbody; simpl; [done|].
  unfold bind. rewrite Hbody by left.
  destruct (f i); [done|]. apply IH. intros i' Hi'. apply Hbody. by right.
Qed.

Lemma forAcc_frame (body : nat → A → M A) ixs s b r b' :
  (∀ i s0 b0 r0 b1, body i s0 b0 = (Return r0, b1) → b1 = b0) →
  forAcc body ixs s b = (Return r, b') → b' = b.
Proof.
  intros Hbody. revert s b. induction ixs as [|i ixs IH]; intros s b; simpl.
  - unfold ret. by intros [= _ <-].
  - unfold bind. destruct (body i s b) as [[r0|] b1] eqn:Hi; [|done].
    apply Hbody in Hi as ->. apply IH.
Qed.

End Loops.

Lemma forAcc_run {A} (body : nat → list A → M (list A)) (g : nat → list A) ixs acc b :
  (∀ i acc0, i ∈ ixs → body i acc0 b = (Return (acc0 ++ g i), b)) →
  forAcc body ixs acc b = (Return (acc ++ (ixs ≫= g)), b).
Proof.
  revert acc. induction ixs as [|i ixs IH]; intros acc Hbody.
  - simpl. by rewrite app_nil_r.
  - rewrite bind_cons. simpl. unfold bind. rewrite Hbody by left.
    rewrite IH; [by rewrite <- app_assoc|].
    intros i' acc0 Hi'. apply Hbody. by right.
Qed.

(** ** [simpleAIMove] *)

Lemma winnerIs_spec w mk : winnerIs w mk = true ↔ ∃ l, w = Some (mk, l).
Proof.
  destruct w as [[m l]|]; simpl.
  - rewrite bool_decide_eq_true. split.
    + intros ->. by exists l.
    + by intros (l' & [= -> _]).
  - split; [done|]. by intros (l & Hl).
Qed.

Lemma winsAtb_spec b mk p : winsAtb b mk p = true ↔ winsAt b mk p.
Proof.
  unfold winsAtb, winsAt.
  rewrite andb_true_iff, bool_decide_eq_true.
  destruct (checkWinner (place b p (Some mk))) as [w|].
  - rewrite winnerIs_spec. split; intros [He (l & Hl)]; (split; [done|]).
    + exists l. by rewrite Hl.
    + exists l. congruence.
  - split; [by intros [_ ?]|]. by intros [_ (l & Hl)].
Qed.

Lemma cells_lookup k p : cells !! k = Some p ↔ inRange p ∧ k = 3 * p.1 + p.2.
Proof.
  unfold inRange. destruct p as [i j]. simpl. split.
  - do 9 (destruct k as [|k]; [intros [= <- <-]; lia|]). done.
  - intros [[Hi Hj] ->].
    do 3 (destruct i as [|i]; [do 3 (destruct j as [|j]; [done|]); lia|]). lia.
Qed.

Lemma elem_of_cells p : p ∈ cells ↔ inRange p.
Proof.
  rewrite list_elem_of_lookup. split.
  - intros [k Hk]. by apply cells_lookup in Hk as [? _].
  - intros Hp. exists (3 * p.1 + p.2). by apply cells_lookup.
Qed.

Section Scan.
Context (b : Board) (Hwf : wf_board b).

Lemma winsAt_inRange mk p : winsAt b mk p → inRange p.
Proof. intros [He _]. by eapply cellAt_inRange. Qed.

(** The tier ends with the first cell, in row-major order, where the
    placement wins. *)
Lemma firstWinsAt_Some mk p :
  firstWinsAt b mk = Some p ↔
  winsAt b mk p ∧ ∀ q, rowMajorLt q p → ¬ winsAt b mk q.
Proof.
  unfold firstWinsAt. rewrite firstHit_test_Some. split.
  - intros (k & Hk & Hp & Hfirst). apply cells_lookup in Hk as [Hr ->].
    split; [by apply winsAtb_spec|].
    intros q Hlt Hq. apply winsAtb_spec in Hq as Hqb.
    apply winsAt_inRange in Hq.
    rewrite (Hfirst (3 * q.1 + q.2) q) in Hqb; [done| |by apply cells_lookup].
    destruct Hr, Hq, Hlt as [?|[? ?]]; lia.
  - intros [Hp Hfirst]. exists (3 * p.1 + p.2). split_and!.
    + apply cells_lookup. split; [by eapply winsAt_inRange|done].
    + by apply winsAtb_spec.
    + intros k' q Hlt Hk'. apply cells_lookup in Hk' as [Hq ->].
      apply not_true_is_false. rewrite winsAtb_spec. apply Hfirst.
      unfold rowMajorLt. destruct Hq. apply winsAt_inRange in Hp as []. lia.
Qed.

Lemma firstWinsAt_None mk :
  firstWinsAt b mk = None ↔ ∀ q, ¬ winsAt b mk q.
Proof.
  unfold firstWinsAt. rewrite firstHit_test_None. split.
  - intros Hall q Hq. apply winsAtb_spec in Hq as Hqb.
    rewrite Hall in Hqb; [done|]. eapply elem_of_cells, winsAt_inRange, Hq.
  - intros Hno q _. apply not_true_is_false. rewrite winsAtb_spec. apply Hno.
Qed.

Lemma elem_of_emptiesOf p : p ∈ emptiesOf b ↔ EmptyCell b p.
Proof.
  unfold emptiesOf. rewrite list_elem_of_bind. split.
  - intros (i & (j & Hp & _)%list_elem_of_bind & _).
    destruct (decide (EmptyCell b (i, j))) as [He|]; [|by apply elem_of_nil in Hp].
    by apply list_elem_of_singleton in Hp as ->.
  - intros He. pose proof (cellAt_inRange b p _ Hwf He) as [Hi Hj].
    destruct p as [i j]. simpl in Hi, Hj.
    exists i. split; [|apply elem_of_seq; lia].
    apply list_elem_of_bind. exists j. split; [|apply elem_of_seq; lia].
    rewrite decide_True by done. by apply list_elem_of_singleton.
Qed.

End Scan.

(** *** What a call does to the board *)

(** One iteration of the first two double loops, on any board. *)
Lemma tryCell_unfold mk i j b :
  tryCell mk i j b =
  match readCell b i j with
  | TypeError => (TypeError, b)
  | Return v =>
      if decide (v = Null) then
        match checkWinner (place b (i, j) (Some mk)) with
        | TypeError => (TypeError, place b (i, j) (Some mk))
        | Return w => (Return (if winnerIs w mk then Some (i, j) else None), b)
        end
      else (Return None, b)
  end.
Proof.
  unfold tryCell, bind, rd, lift, wr, ret.
  destruct (readCell b i j) as [v|] eqn:Hv; [|done].
  destruct (decide (v = Null)) as [->|]; [|done].
  apply readCell_Null in Hv.
  rewrite (writeCell_place b i j _ None Hv).
  destruct (checkWinner _) as [w|]; [|done].
  assert (writeCell (place b (i, j) (Some mk)) i j None = Return b) as Hback.
  { rewrite (writeCell_place _ i j None (Some mk)) by (by eapply cellAt_place_eq).
    by rewrite place_undo. }
  destruct (winnerIs w mk); by rewrite Hback.
Qed.

Lemma tryCell_frame mk i j b r b' :
  tryCell mk i j b = (Return r, b') → b' = b.
Proof.
  rewrite tryCell_unfold.
  destruct (readCell b i j) as [v|]; [|done].
  destruct (decide (v = Null)); [|by intros [= _ <-]].
  destruct (checkWinner _); [by intros [= _ <-]|done].
Qed.

Lemma scanBoard_frame mk b r b' :
  scanBoard mk b = (Return r, b') → b' = b.
Proof.
  apply forEach_frame. intros i b0 r0 b1.
  apply forEach_frame. intros j b2 r2 b3. apply tryCell_frame.
Qed.

Lemma collectEmpties_frame b r b' :
  collectEmpties b = (Return r, b') → b' = b.
Proof.
  apply forAcc_frame. intros i s0 b0 r0 b1.
  apply forAcc_frame. intros j s1 b2 r2 b3.
  unfold bind, rd, lift, ret. destruct (readCell b2 i j); [|done].
  by intros [= _ <-].
Qed.

(** Whenever [simpleAIMove] returns, the board is as it was. *)
Lemma simpleAIMove_frame b aiMark humanMark rnd r b' :
  simpleAIMove b aiMark humanMark rnd = (Return r, b') → b' = b.
Proof.
  unfold simpleAIMove, bind.
  destruct (scanBoard aiMark b) as [[r1|] b1] eqn:H1; [|done].
  apply scanBoard_frame in H1 as ->.
  destruct r1 as [c|]; [by intros [= _ <-]|].
  destruct (scanBoard humanMark b) as [[r2|] b2] eqn:H2; [|done].
  apply scanBoard_frame in H2 as ->.
  destruct r2 as [c|]; [by intros [= _ <-]|].
  unfold rd, lift, ret. destruct (readCell b 1 1) as [v|]; [|done].
  destruct (decide (v = Null)); [by intros [= _ <-]|].
  destruct (collectEmpties b) as [[es|] b3] eqn:H3; [|done].
  apply collectEmpties_frame in H3 as ->. by intros [= _ <-].
Qed.

(** *** What a call returns on a board of three by three *)

Section Run.
Context (b : Board) (Hwf : wf_board b).

Lemma tryCell_run mk i j :
  inRange (i, j) →
  tryCell mk i j b = (Return (if winsAtb b mk (i, j) then Some (i, j) else None), b).
Proof.
  intros Hr. rewrite tryCell_unfold. unfold winsAtb.
  destruct (cellAt_is_Some b _ Hwf Hr) as [c Hc].
  rewrite (readCell_cellAt _ _ _ _ Hc).
  destruct c as [m|]; simpl.
  - rewrite bool_decide_eq_false_2; [done|]. unfold EmptyCell. congruence.
  - rewrite bool_decide_eq_true_2 by done. simpl.
    destruct (checkWinner_total (place b (i, j) (Some mk))) as [w ->];
      [by apply place_wf|done].
Qed.

Lemma scanBoard_run mk :
  scanBoard mk b = (Return (firstWinsAt b mk), b).
Proof.
  unfold scanBoard, firstWinsAt, cells.
  rewrite <- (firstHit_nested (λ p, if winsAtb b mk p then Some p else None)).
  apply forEach_run. intros i Hi.
  apply forEach_run. intros j Hj.
  apply tryCell_run. apply elem_of_seq in Hi, Hj. split; simpl; lia.
Qed.

Lemma collectEmpties_run :
  collectEmpties b = (Return (emptiesOf b), b).
Proof.
  unfold collectEmpties, emptiesOf.
  rewrite (forAcc_run _
    (λ i, seq 0 3 ≫= λ j, if decide (EmptyCell b (i, j)) then [(i, j)] else []));
    [done|].
  intros i acc Hi.
  apply (forAcc_run _
    (λ j, if decide (EmptyCell b (i, j)) then [(i, j)] else [])).
  intros j acc0 Hj. apply elem_of_seq in Hi, Hj.
  destruct (cellAt_is_Some b (i, j) Hwf) as [c Hc]; [split; simpl; lia|].
  unfold bind, rd, lift, ret. rewrite (readCell_cellAt _ _ _ _ Hc).
  destruct (decide (EmptyCell b (i, j))) as [He|He];
    unfold EmptyCell in He; rewrite Hc in He; destruct c as [m|]; simpl;
    try done.
  by rewrite app_nil_r.
Qed.

Lemma simpleAIMove_run aiMark humanMark rnd :
  simpleAIMove b aiMark humanMark rnd =
  (Return (aiChoice b aiMark humanMark rnd), b).
Proof.
  unfold simpleAIMove, aiChoice, bind. rewrite !scanBoard_run.
  destruct (firstWinsAt b aiMark); [done|]. rewrite scanBoard_run.
  destruct (firstWinsAt b humanMark); [done|].
  destruct (cellAt_is_Some b (1, 1) Hwf) as [c Hc]; [split; simpl; lia|].
  unfold rd, lift, ret. rewrite (readCell_cellAt _ _ _ _ Hc).
  destruct (decide (EmptyCell b (1, 1))) as [He|He];
    unfold EmptyCell in He; rewrite Hc in He; destruct c as [m|]; simpl;
    try done.
  by rewrite collectEmpties_run.
Qed.

End Run.

(** *** Rounding and the random index *)

Section Rounding.

Local Open Scope Q_scope.

Lemma pow2_pos (k : Z) : 0 < 2 ^ k.
Proof. apply Qpower_0_lt. reflexivity. Qed.

Lemma pow2_add (a b : Z) : 2 ^ (a + b) == 2 ^ a * 2 ^ b.
Proof. apply Qpower_plus. discriminate. Qed.

Lemma pow2_Z (k : Z) : (0 <= k)%Z -> 2 ^ k == inject_Z (2 ^ k).
Proof. intros Hk. symmetry. apply (Zpower_Qpower 2 k Hk). Qed.

Lemma pow2_lt_inv (a b : Z) : 2 ^ a < 2 ^ b -> (a < b)%Z.
Proof.
  intros Hlt. destruct (Z_lt_le_dec a b) as [|Hle]; [assumption|].
  assert (2 ^ b <= 2 ^ a) by (apply Qpower_le_compat_l; [exact Hle|discriminate]).
  lra.
Qed.

Lemma Qmake_mult (x : Q) : x * inject_Z (Zpos (Qden x)) == inject_Z (Qnum x).
Proof. destruct x as [a b]. unfold Qeq, Qmult, inject_Z. simpl. lia. Qed.

(** [ilog2 x] is the exponent of [x]. *)
Lemma ilog2_le (x : Q) : 0 < x -> 2 ^ ilog2 x <= x.
Proof.
  intros Hx. unfold ilog2.
  set (la := Z.log2 (Qnum x)). set (lb := Z.log2 (Zpos (Qden x))).
  destruct (Qle_bool (2 ^ (la - lb)) x) eqn:Hb; [now apply Qle_bool_iff|].
  assert (0 < Qnum x)%Z as Ha.
  { destruct x as [a b]. unfold Qlt in Hx. simpl in *. lia. }
  pose proof (Z.log2_spec (Qnum x) Ha) as [Hla _].
  pose proof (Z.log2_spec (Zpos (Qden x)) ltac:(lia)) as [_ Hlb].
  fold la in Hla. fold lb in Hlb.
  assert (0 <= la)%Z as Hla0 by apply Z.log2_nonneg.
  assert (0 <= lb)%Z as Hlb0 by apply Z.log2_nonneg.
  pose proof (Qmake_mult x) as Hxb.
  assert (2 ^ (la - lb - 1) * 2 ^ (lb + 1) == 2 ^ la) as Hpow.
  { rewrite <- pow2_add. replace (la - lb - 1 + (lb + 1))%Z with la by lia. reflexivity. }
  rewrite (pow2_Z la Hla0) in Hpow. rewrite (pow2_Z (lb + 1)) in Hpow by lia.
  pose proof (pow2_pos (la - lb - 1)) as Hp.
  assert (inject_Z (2 ^ la) <= inject_Z (Qnum x)) as H1 by (rewrite <- Zle_Qle; exact Hla).
  assert (inject_Z (Zpos (Qden x)) <= inject_Z (2 ^ (lb + 1))) as H2.
  { rewrite <- Zle_Qle. unfold Z.succ in Hlb. lia. }
  assert (0 < inject_Z (Zpos (Qden x))) as H3.
  { change 0 with (inject_Z 0). rewrite <- Zlt_Qlt. lia. }
  revert Hxb Hpow Hp H1 H2 H3.
  generalize (2 ^ (la - lb - 1)) (inject_Z (2 ^ la)) (inject_Z (2 ^ (lb + 1)))
             (inject_Z (Zpos (Qden x))) (inject_Z (Qnum x)).
  intros P L U B A Hxb Hpow Hp H1 H2 H3.
  apply Qnot_lt_le. intros Hlt.
  assert (x * B < P * B) as H4 by (apply Qmult_lt_r; assumption).
  assert (P * B <= P * U) as H5 by (apply Qmult_le_l; assumption).
  lra.
Qed.

Lemma ilog2_lt (x : Q) : 0 < x -> x < 2 ^ (ilog2 x + 1).
Proof.
  intros Hx. unfold ilog2.
  set (la := Z.log2 (Qnum x)). set (lb := Z.log2 (Zpos (Qden x))).
  destruct (Qle_bool (2 ^ (la - lb)) x) eqn:Hb.
  - assert (0 < Qnum x)%Z as Ha.
    { destruct x as [a b]. unfold Qlt in Hx. simpl in *. lia. }
    pose proof (Z.log2_spec (Qnum x) Ha) as [_ Hla].
    pose proof (Z.log2_spec (Zpos (Qden x)) ltac:(lia)) as [Hlb _].
    fold la in Hla. fold lb in Hlb.
    assert (0 <= la)%Z as Hla0 by apply Z.log2_nonneg.
    assert (0 <= lb)%Z as Hlb0 by apply Z.log2_nonneg.
    pose proof (Qmake_mult x) as Hxb.
    assert (2 ^ (la - lb + 1) * 2 ^ lb == 2 ^ (la + 1)) as Hpow.
    { rewrite <- pow2_add. replace (la - lb + 1 + lb)%Z with (la + 1)%Z by lia. reflexivity. }
    rewrite (pow2_Z (la + 1)) in Hpow by lia. rewrite (pow2_Z lb Hlb0) in Hpow.
    pose proof (pow2_pos (la - lb + 1)) as Hp.
    assert (inject_Z (Qnum x) < inject_Z (2 ^ (la + 1))) as H1.
    { rewrite <- Zlt_Qlt. unfold Z.succ in Hla. exact Hla. }
    assert (inject_Z (2 ^ lb) <= inject_Z (Zpos (Qden x))) as H2.
    { rewrite <- Zle_Qle. exact Hlb. }
    assert (0 < inject_Z (2 ^ lb)) as H3.
    { change 0 with (inject_Z 0). rewrite <- Zlt_Qlt. lia. }
    revert Hxb Hpow Hp H1 H2 H3.
    generalize (2 ^ (la - lb + 1)) (inject_Z (2 ^ (la + 1))) (inject_Z (2 ^ lb))
               (inject_Z (Zpos (Qden x))) (inject_Z (Qnum x)).
    intros P U L B A Hxb Hpow Hp H1 H2 H3.
    apply Qnot_le_lt. intros Hle.
    assert (P * L <= P * B) as H4 by (apply Qmult_le_l; assumption).
    assert (P * B <= x * B) as H5 by (apply Qmult_le_compat_r; lra).
    lra.
  - replace (la - lb - 1 + 1)%Z with (la - lb)%Z by lia.
    apply Qnot_le_lt. intros Hle. apply Qle_bool_iff in Hle. congruence.
Qed.

(** [roundEven q] is within a half of [q], and is [q] when [q] is an
    integer. *)
Lemma roundEven_bounds (q : Q) :
  (Qfloor q <= roundEven q)%Z /\ inject_Z (roundEven q) <= q + (1 # 2).
Proof.
  unfold roundEven. pose proof (Qfloor_le q) as Hf.
  destruct (Qcompare_spec (q - inject_Z (Qfloor q)) (1 # 2)) as [He|Hl|Hg].
  - destruct (Z.even (Qfloor q)).
    + split; [lia|lra].
    + split; [lia|]. rewrite inject_Z_plus. change (inject_Z 1) with 1. lra.
  - split; [lia|lra].
  - split; [lia|]. rewrite inject_Z_plus. change (inject_Z 1) with 1. lra.
Qed.

Lemma roundEven_near (q : Q) :
  q - (1 # 2) <= inject_Z (roundEven q) /\ inject_Z (roundEven q) <= q + (1 # 2).
Proof.
  split; [|apply roundEven_bounds].
  unfold roundEven. pose proof (Qlt_floor q) as Hf.
  rewrite inject_Z_plus in Hf. change (inject_Z 1) with 1 in Hf.
  destruct (Qcompare_spec (q - inject_Z (Qfloor q)) (1 # 2)) as [He|Hl|Hg].
  - destruct (Z.even (Qfloor q)); [lra|].
    rewrite inject_Z_plus. change (inject_Z 1) with 1. lra.
  - lra.
  - rewrite inject_Z_plus. change (inject_Z 1) with 1. lra.
Qed.

Lemma roundEven_Z (q : Q) (z : Z) : q == inject_Z z -> roundEven q = z.
Proof.
  intros Hq. unfold roundEven. rewrite (Qfloor_comp _ _ Hq), Qfloor_Z.
  assert (q - inject_Z z < 1 # 2) as Hlt by (rewrite Hq; ring_simplify; reflexivity).
  rewrite (proj1 (Qlt_alt _ _) Hlt). reflexivity.
Qed.

(** A binary64 value is not changed by the rounding. *)
Lemma round64_exact_pos (x : Q) (m k : Z) :
  (0 < m < 2 ^ 53)%Z -> (-1074 <= k)%Z -> x == inject_Z m * 2 ^ k ->
  inject_Z (roundEven (x * 2 ^ (52 - Z.max (ilog2 x) (-1022))))
    * 2 ^ (Z.max (ilog2 x) (-1022) - 52) == x.
Proof.
  intros [Hm0 Hm] Hk Hx.
  pose proof (pow2_pos k) as Hpk.
  assert (0 < inject_Z m) as Hmq.
  { change 0 with (inject_Z 0). rewrite <- Zlt_Qlt. exact Hm0. }
  assert (0 < x) as Hpos by (rewrite Hx; apply Qmult_lt_0_compat; assumption).
  set (e := Z.max (ilog2 x) (-1022)).
  assert (e <= k + 52)%Z as He.
  { assert (ilog2 x < 53 + k)%Z; [|unfold e; lia].
    apply pow2_lt_inv. eapply Qle_lt_trans; [apply (ilog2_le x Hpos)|].
    rewrite Hx, pow2_add, (pow2_Z 53) by lia.
    apply Qmult_lt_r; [assumption|]. rewrite <- Zlt_Qlt. exact Hm. }
  assert (x * 2 ^ (52 - e) == inject_Z (m * 2 ^ (k + 52 - e))) as Hq.
  { rewrite Hx, inject_Z_mult, <- (pow2_Z (k + 52 - e)) by lia.
    replace (k + 52 - e)%Z with (k + (52 - e))%Z by lia.
    rewrite (pow2_add k (52 - e)). ring. }
  rewrite (roundEven_Z _ _ Hq), inject_Z_mult, <- (pow2_Z (k + 52 - e)) by lia.
  etransitivity; [|symmetry; exact Hx].
  rewrite <- Qmult_assoc, <- (pow2_add (k + 52 - e) (e - 52)).
  replace (k + 52 - e + (e - 52))%Z with k by lia. reflexivity.
Qed.

Lemma round64_exact (x : Q) : binary64 x -> round64 x == x.
Proof.
  intros (m & k & Hm & [Hk _] & Hx). unfold round64.
  pose proof (pow2_pos k) as Hpk.
  destruct (Qcompare_spec x 0) as [Hz|Hneg|Hpos].
  - symmetry. exact Hz.
  - assert (0 < - m)%Z as Hm0.
    { destruct (Z_lt_le_dec m 0) as [|Hge]; [lia|].
      assert (0 <= inject_Z m) by (change 0 with (inject_Z 0); rewrite <- Zle_Qle; exact Hge).
      assert (0 <= inject_Z m * 2 ^ k) by (apply Qmult_le_0_compat; lra). lra. }
    rewrite (round64_exact_pos (- x) (- m) k); [ring|lia|exact Hk|].
    rewrite Hx, inject_Z_opp. ring.
  - assert (0 < m)%Z as Hm0.
    { destruct (Z_lt_le_dec 0 m) as [|Hle]; [assumption|].
      assert (inject_Z m <= 0) by (change 0 with (inject_Z 0); rewrite <- Zle_Qle; exact Hle).
      assert (inject_Z m * 2 ^ k <= 0 * 2 ^ k) by (apply Qmult_le_compat_r; lra). lra. }
    apply (round64_exact_pos x m k); [lia|exact Hk|exact Hx].
Qed.

(** The rounding moves [x] by half a unit of its last bit at most, and
    its result is a binary64 value. *)
Lemma round64_near (x : Q) :
  0 < x ->
  x - 2 ^ (Z.max (ilog2 x) (-1022) - 53) <= round64 x /\
  round64 x <= x + 2 ^ (Z.max (ilog2 x) (-1022) - 53).
Proof.
  intros Hx. unfold round64. rewrite (proj1 (Qgt_alt _ _) Hx).
  set (e := Z.max (ilog2 x) (-1022)).
  pose proof (roundEven_near (x * 2 ^ (52 - e))) as [Hlo Hhi].
  pose proof (pow2_pos (e - 52)) as Hp.
  assert (2 ^ (52 - e) * 2 ^ (e - 52) == 1) as Hinv.
  { rewrite <- pow2_add. replace (52 - e + (e - 52))%Z with 0%Z by lia. reflexivity. }
  assert ((1 # 2) * 2 ^ (e - 52) == 2 ^ (e - 53)) as Hhalf.
  { change (1 # 2) with (2 ^ (-1)). rewrite <- pow2_add.
    replace (-1 + (e - 52))%Z with (e - 53)%Z by lia. reflexivity. }
  assert (x * 2 ^ (52 - e) * 2 ^ (e - 52) == x) as Hback.
  { rewrite <- Qmult_assoc, Hinv. ring. }
  apply (Qmult_le_compat_r _ _ (2 ^ (e - 52))) in Hlo; [|lra].
  apply (Qmult_le_compat_r _ _ (2 ^ (e - 52))) in Hhi; [|lra].
  assert ((x * 2 ^ (52 - e) - (1 # 2)) * 2 ^ (e - 52) == x - 2 ^ (e - 53)) as E1.
  { transitivity (x * 2 ^ (52 - e) * 2 ^ (e - 52) - (1 # 2) * 2 ^ (e - 52)); [ring|].
    rewrite Hback, Hhalf. reflexivity. }
  assert ((x * 2 ^ (52 - e) + (1 # 2)) * 2 ^ (e - 52) == x + 2 ^ (e - 53)) as E2.
  { transitivity (x * 2 ^ (52 - e) * 2 ^ (e - 52) + (1 # 2) * 2 ^ (e - 52)); [ring|].
    rewrite Hback, Hhalf. reflexivity. }
  rewrite E1 in Hlo. rewrite E2 in Hhi. split; assumption.
Qed.

Lemma round64_binary64 (x : Q) : 0 < x -> x < 2 ^ 1023 -> binary64 (round64 x).
Proof.
  intros Hx Hbig. unfold round64. rewrite (proj1 (Qgt_alt _ _) Hx).
  set (e := Z.max (ilog2 x) (-1022)).
  set (m := roundEven (x * 2 ^ (52 - e))).
  pose proof (pow2_pos (52 - e)) as Hp.
  assert (ilog2 x < 1023)%Z as Hlog.
  { apply pow2_lt_inv. eapply Qle_lt_trans; [apply (ilog2_le x Hx)|exact Hbig]. }
  assert (x < 2 ^ (e + 1)) as Hxe.
  { eapply Qlt_le_trans; [apply (ilog2_lt x Hx)|].
    apply Qpower_le_compat_l; [unfold e; lia|discriminate]. }
  assert (x * 2 ^ (52 - e) < inject_Z (2 ^ 53)) as Hq.
  { rewrite <- (pow2_Z 53) by lia.
    replace 53%Z with (e + 1 + (52 - e))%Z by lia. rewrite (pow2_add (e + 1) (52 - e)).
    apply Qmult_lt_r; assumption. }
  assert (0 <= m <= 2 ^ 53)%Z as [Hm0 Hm].
  { pose proof (roundEven_bounds (x * 2 ^ (52 - e))) as [Hlo _]. fold m in Hlo.
    assert (0 <= Qfloor (x * 2 ^ (52 - e)))%Z.
    { change 0%Z with (Qfloor 0). apply Qfloor_resp_le. apply Qmult_le_0_compat; lra. }
    assert (Qfloor (x * 2 ^ (52 - e)) < 2 ^ 53)%Z.
    { rewrite Zlt_Qlt. eapply Qle_lt_trans; [apply Qfloor_le|exact Hq]. }
    split; [lia|]. unfold m, roundEven.
    destruct (_ ?= _); [destruct (Z.even _)|..]; lia. }
  destruct (Z.eq_dec m (2 ^ 53)%Z) as [Heq|Hne].
  - exists (2 ^ 52)%Z, (e - 51)%Z. split; [reflexivity|]. split; [unfold e; lia|].
    rewrite Heq. rewrite <- (pow2_Z 53), <- (pow2_Z 52) by lia.
    rewrite <- !pow2_add. replace (53 + (e - 52))%Z with (52 + (e - 51))%Z by lia.
    reflexivity.
  - exists m, (e - 52)%Z. split; [lia|]. split; [unfold e; lia|]. reflexivity.
Qed.

(** A product that is at most [c * (1 - 2 ^ -53)] is rounded to a
    number below [c]: the rounding adds less than [c * 2 ^ -53]. *)
Lemma round64_bound (x c : Q) :
  0 < x -> x <= c * (1 - 2 ^ (-53)) -> 1 <= c ->
  0 <= round64 x /\ round64 x < c.
Proof.
  intros Hx Hxc Hc. unfold round64.
  apply Qgt_alt in Hx as Hcmp. rewrite Hcmp. apply Qgt_alt in Hcmp.
  set (e := Z.max (ilog2 x) (-1022)).
  pose proof (roundEven_bounds (x * 2 ^ (52 - e))) as [Hlo Hhi].
  pose proof (pow2_pos (52 - e)) as Hp1. pose proof (pow2_pos (e - 52)) as Hp2.
  pose proof (pow2_pos e) as He. pose proof (pow2_pos (-53)) as Hc53.
  assert (2 ^ e < c) as Hec.
  { destruct (Z.max_spec (ilog2 x) (-1022)) as [[_ Hm]|[_ Hm]]; fold e in Hm; rewrite Hm.
    - assert (2 ^ (-1022) < 1) as H; [reflexivity|lra].
    - pose proof (ilog2_le x Hx).
      assert (c * (1 - 2 ^ (-53)) < c) as H1; [|lra].
      assert (0 < c * 2 ^ (-53)) by (apply Qmult_lt_0_compat; lra). lra. }
  assert (2 ^ (52 - e) * 2 ^ (e - 52) == 1) as Hinv.
  { rewrite <- pow2_add. replace (52 - e + (e - 52))%Z with 0%Z by lia. reflexivity. }
  assert ((1 # 2) * 2 ^ (e - 52) == 2 ^ e * 2 ^ (-53)) as Hhalf.
  { change (1 # 2) with (2 ^ (-1)). rewrite <- !pow2_add. 
    replace (-1 + (e - 52))%Z with (e + -53)%Z by lia. reflexivity. }
  assert (0 <= inject_Z (roundEven (x * 2 ^ (52 - e)))) as Hm0.
  { change 0 with (inject_Z 0). rewrite <- Zle_Qle.
    etransitivity; [|exact Hlo]. change 0%Z with (Qfloor 0).
    apply Qfloor_resp_le. apply Qmult_le_0_compat; lra. }
  assert (inject_Z (roundEven (x * 2 ^ (52 - e))) * 2 ^ (e - 52)
          <= (x * 2 ^ (52 - e) + (1 # 2)) * 2 ^ (e - 52)) as Hres.
  { apply Qmult_le_compat_r; lra. }
  assert ((x * 2 ^ (52 - e) + (1 # 2)) * 2 ^ (e - 52) == x + 2 ^ e * 2 ^ (-53)) as Heq.
  { rewrite <- Hhalf.
    transitivity (x * (2 ^ (52 - e) * 2 ^ (e - 52)) + (1 # 2) * 2 ^ (e - 52)); [ring|].
    rewrite Hinv. ring. }
  assert (2 ^ e * 2 ^ (-53) < c * 2 ^ (-53)) as Hlt by (apply Qmult_lt_r; assumption).
  split.
  - apply Qmult_le_0_compat; lra.
  - rewrite Heq in Hres.
    assert (c * (1 - 2 ^ (-53)) == c - c * 2 ^ (-53)) as Hd by ring.
    lra.
Qed.

(** The binary64 values below 1 are at most [1 - 2 ^ -53], the
    greatest of them. *)
Lemma binary64_below_one (x : Q) :
  binary64 x -> x < 1 -> x <= 1 - 2 ^ (-53).
Proof.
  intros (m & e & Hm & _ & Hx) H1.
  assert (2 ^ 53 * 2 ^ (-53) == 1) as Hinv by reflexivity.
  pose proof (pow2_pos (-53)) as Hc. pose proof (pow2_pos 53) as Hc'.
  destruct (Z_lt_le_dec e (-53)) as [Hsmall|Hbig].
  - (* below 2^-1 *)
    assert (inject_Z m <= 2 ^ 53) as Hm'.
    { rewrite (pow2_Z 53) by lia. rewrite <- Zle_Qle. lia. }
    assert (inject_Z m * 2 ^ e <= 2 ^ 53 * 2 ^ e) as H2.
    { apply Qmult_le_compat_r; [exact Hm'|]. apply Qlt_le_weak, pow2_pos. }
    rewrite <- pow2_add in H2.
    assert (2 ^ (53 + e) <= 2 ^ (-1)) as H3.
    { apply Qpower_le_compat_l; [lia|]. discriminate. }
    assert (2 ^ (-1) <= 1 - 2 ^ (-53)) as H4 by discriminate.
    rewrite Hx. lra.
  - (* a multiple of 2^-53 *)
    assert (x * 2 ^ 53 == inject_Z (m * 2 ^ (e + 53))) as Hint.
    { rewrite Hx, inject_Z_mult, <- (pow2_Z (e + 53)) by lia.
      rewrite pow2_add. ring. }
    assert (x * 2 ^ 53 < 1 * 2 ^ 53) as H2 by (apply Qmult_lt_r; assumption).
    rewrite Qmult_1_l in H2.
    rewrite Hint in H2. rewrite (pow2_Z 53) in H2 by lia. rewrite <- Zlt_Qlt in H2.
    assert (inject_Z (m * 2 ^ (e + 53)) <= inject_Z (2 ^ 53 - 1)) as H3.
    { rewrite <- Zle_Qle. lia. }
    rewrite <- Hint in H3.
    assert (inject_Z (2 ^ 53 - 1) == 2 ^ 53 - 1) as H4 by reflexivity.
    rewrite H4 in H3.
    assert (x == x * 2 ^ 53 * 2 ^ (-53)) as H5.
    { transitivity (x * (2 ^ 53 * 2 ^ (-53))); [rewrite Hinv; ring|ring]. }
    assert (x * 2 ^ 53 * 2 ^ (-53) <= (2 ^ 53 - 1) * 2 ^ (-53)) as H6.
    { apply Qmult_le_compat_r; lra. }
    assert ((2 ^ 53 - 1) * 2 ^ (-53) == 1 - 2 ^ (-53)) as H7 by reflexivity.
    lra.
Qed.

Lemma randomIndex_zero rnd : randomIndex rnd 0 = 0%Z.
Proof.
  unfold randomIndex, round64.
  assert (rnd * inject_Z (Z.of_nat 0) == 0) as Hz by (simpl; ring).
  apply Qeq_alt in Hz. rewrite Hz. reflexivity.
Qed.

(** The index is one of [0 .. n - 1], rounding included. *)
Lemma randomIndex_range rnd n :
  0 <= rnd -> rnd <= 1 - 2 ^ (-53) -> (0 < n)%nat ->
  (0 <= randomIndex rnd n < Z.of_nat n)%Z.
Proof.
  intros H0 H1 Hn. unfold randomIndex.
  set (c := inject_Z (Z.of_nat n)).
  assert (1 <= c) as Hc.
  { change 1 with (inject_Z 1). unfold c. rewrite <- Zle_Qle. lia. }
  destruct (Qlt_le_dec 0 (rnd * c)) as [Hpos|Hnp].
  - destruct (round64_bound (rnd * c) c Hpos) as [Hlo Hhi]; [|assumption|].
    + rewrite (Qmult_comm rnd c). apply Qmult_le_l; [|exact H1].
      eapply Qlt_le_trans; [|exact Hc]. reflexivity.
    + split.
      * change 0%Z with (Qfloor 0). apply Qfloor_resp_le. exact Hlo.
      * rewrite Zlt_Qlt. eapply Qle_lt_trans; [apply Qfloor_le|exact Hhi].
  - assert (rnd * c == 0) as Hz.
    { apply Qle_antisym; [assumption|]. apply Qmult_le_0_compat; lra. }
    unfold round64. apply Qeq_alt in Hz. rewrite Hz.
    change (Qfloor 0) with 0%Z. lia.
Qed.

Lemma binary64_half : binary64 (1 # 2).
Proof. exists 1%Z, (-1)%Z. split; [reflexivity|]. split; [lia|reflexivity]. Qed.

Lemma binary64_sixteenths (a : Z) : (0 <= a < 16)%Z -> binary64 (a # 16).
Proof.
  intros Ha. exists a, (-4)%Z. split; [lia|]. split; [lia|].
  unfold Qeq. simpl. lia.
Qed.

Lemma binary64_nearFourSevenths : binary64 nearFourSevenths.
Proof.
  exists 5146971002709138%Z, (-53)%Z.
  split; [reflexivity|]. split; [lia|]. by vm_compute.
Qed.

(** The rounding at work: 0.5714285714285714 is a binary64 value below
    4/7 whose exact product with 7 is below 4 and whose binary64 product
    with 7 is 4, the same as [SFmul] computes. *)
Example randomIndex_rounds :
  binary64 nearFourSevenths /\ nearFourSevenths < 4 # 7 /\
  Qfloor (nearFourSevenths * 7) = 3%Z /\ randomIndex nearFourSevenths 7 = 4%Z.
Proof.
  split; [apply binary64_nearFourSevenths|].
  split; [by vm_compute|]. split; by vm_compute.
Qed.

Example round64_agrees_with_SFmul :
  forallb (fun '(a, b) => mulAgrees a b)
    [ (S754_finite false 5146971002709138 (-53), S754_finite false 7 0);
      (S754_finite false 6004799503160661 (-54), S754_finite false 6 0);
      (S754_finite false 6004799503160661 (-54), S754_finite false 3 0);
      (S754_finite false 3602879701896397 (-55), S754_finite false 3 0);
      (S754_finite false 9007199254740991 (-53), S754_finite false 9 0);
      (S754_finite false 9007199254740991 (-53), S754_finite false 5 0);
      (S754_finite false 4503599627370497 (-53), S754_finite false 3 0);
      (S754_finite false 4503599627370499 (-53), S754_finite false 3 0);
      (S754_finite false 4503599627370497 (-1074), S754_finite false 1 (-1));
      (S754_finite false 3 (-1074), S754_finite false 1 (-1));
      (S754_finite false 5 (-1074), S754_finite false 1 (-1));
      (S754_finite true 5146971002709138 (-53), S754_finite false 7 0) ] = true.
Proof. now vm_compute. Qed.

End Rounding.

(** ** The win check *)

Lemma directions_NoDup : NoDup directions.
Proof. apply (bool_decide_unpack _). by vm_compute. Qed.

(** C1. [checkWinner] goes through the eight lines in the order rows top
    to bottom, columns left to right, the two diagonals, and returns the
    first of them whose three cells hold one and the same mark, together
    with that mark; it returns [null] exactly when no line is held.  When
    two lines are held at once, the later one in that order is never the
    one reported. *)
Theorem checkWinner_first_line (b : Board) :
  wf_board b →
  directions = (row <$> [0; 1; 2]) ++ (column <$> [0; 1; 2]) ++ diagonals ∧
  (∃ w, checkWinner b = Return w) ∧
  (∀ m l,
     checkWinner b = Return (Some (m, l)) ↔
     ∃ k, directions !! k = Some l ∧ lineHolds b l m ∧
          ∀ k' l' m', k' < k → directions !! k' = Some l' → ¬ lineHolds b l' m') ∧
  (checkWinner b = Return None ↔ ∀ l m, l ∈ directions → ¬ lineHolds b l m) ∧
  (∀ k1 k2 l1 l2 m1 m2,
     k1 < k2 → directions !! k1 = Some l1 → directions !! k2 = Some l2 →
     lineHolds b l1 m1 → lineHolds b l2 m2 →
     ∀ m, checkWinner b ≠ Return (Some (m, l2))).
Proof.
  intros Hwf. split_and!.
  - reflexivity.
  - by apply checkWinner_total.
  - intros m l. apply firstWinner_Some; [done|apply directions_inRange].
  - apply firstWinner_None; [done|apply directions_inRange].
  - intros k1 k2 l1 l2 m1 m2 Hlt Hk1 Hk2 H1 H2 m Hw.
    apply firstWinner_Some in Hw as (k & Hk & _ & Hfirst);
      [|done|apply directions_inRange].
    pose proof (NoDup_lookup _ _ _ _ directions_NoDup Hk Hk2) as ->.
    by apply (Hfirst k1 l1 m1).
Qed.

Lemma checkWinner_first_line_witness :
  wf_board twoLines ∧
  lineHolds twoLines (row 0) X ∧ lineHolds twoLines (column 0) X ∧
  checkWinner twoLines = Return (Some (X, row 0)) ∧
  checkWinner twoLines ≠ Return (Some (X, column 0)).
Proof.
  assert (wf_board twoLines) as Hwf by wf_concrete.
  destruct (checkWinner_first_line twoLines Hwf) as (_ & _ & _ & _ & Hlater).
  split_and!; [done|done|done|reflexivity|].
  by apply (Hlater 0 3 (row 0) (column 0) X X); [lia|..].
Defined.

(** ** The move selection *)

(** C2. Win-now tier: on a board without a win, if putting [aiMark] on
    some Empty cell makes a win for [aiMark], [simpleAIMove] returns the
    first such cell in row-major order, whatever the opponent's mark, the
    rest of the board and the random number are. *)
Theorem simpleAIMove_win_now (b : Board) (aiMark humanMark : mark) (rnd : Q) :
  wf_board b →
  checkWinner b = Return None →
  (∃ q, winsAt b aiMark q) →
  ∃ p, winsAt b aiMark p ∧
       (∀ q, rowMajorLt q p → ¬ winsAt b aiMark q) ∧
       simpleAIMove b aiMark humanMark rnd = (Return (Some p), b).
Proof.
  intros Hwf _ [q Hq]. rewrite simpleAIMove_run by done. unfold aiChoice.
  destruct (firstWinsAt b aiMark) as [p|] eqn:Hp.
  - apply firstWinsAt_Some in Hp as [Hp Hfirst]; [|done]. by exists p.
  - destruct (proj1 (firstWinsAt_None b Hwf aiMark) Hp q Hq).
Qed.

Lemma simpleAIMove_win_now_witness :
  wf_board winNowBoard ∧ checkWinner winNowBoard = Return None ∧
  winsAt winNowBoard O (1, 2) ∧
  ∃ p, winsAt winNowBoard O p ∧
       (∀ q, rowMajorLt q p → ¬ winsAt winNowBoard O q) ∧
       simpleAIMove winNowBoard O X (1 # 2) = (Return (Some p), winNowBoard).
Proof.
  assert (wf_board winNowBoard) as Hwf by wf_concrete.
  assert (winsAt winNowBoard O (1, 2)) as Hw.
  { split; [reflexivity|]. by exists (row 1). }
  split_and!; [done|reflexivity|done|].
  apply (simpleAIMove_win_now winNowBoard O X (1 # 2) Hwf eq_refl).
  by exists (1, 2).
Defined.

Example simpleAIMove_winNowBoard :
  simpleAIMove winNowBoard O X (1 # 2) = (Return (Some (0, 2)), winNowBoard).
Proof. reflexivity. Qed.

Lemma winsAt_dec_false b mk q : winsAtb b mk q = false → ¬ winsAt b mk q.
Proof. intros Hf Hq. apply winsAtb_spec in Hq. congruence. Qed.

Lemma no_winsAt b mk :
  wf_board b → firstWinsAt b mk = None → ∀ q, ¬ winsAt b mk q.
Proof. intros Hwf Hn. by apply firstWinsAt_None. Qed.

(** C3, as stated, fails: the opponent would win by playing (2,2) and
    the AI has no winning cell, yet the cell returned is (0,1), the
    first of the opponent's winning cells. *)
Lemma simpleAIMove_block_last_cell_counterexample :
  wf_board threeThreats ∧
  checkWinner threeThreats = Return None ∧
  (∀ q, ¬ winsAt threeThreats O q) ∧
  winsAt threeThreats X (2, 2) ∧
  simpleAIMove threeThreats O X (1 # 2) = (Return (Some (0, 1)), threeThreats) ∧
  ¬ simpleAIMove threeThreats O X (1 # 2) = (Return (Some (2, 2)), threeThreats).
Proof.
  assert (wf_board threeThreats) as Hwf by wf_concrete.
  split_and!; [done|reflexivity| | |reflexivity|done].
  - by apply no_winsAt.
  - split; [reflexivity|]. by exists ((0, 0), (1, 1), (2, 2)).
Qed.

(** C3, amended. Block tier: when no placement of [aiMark] wins and
    putting [humanMark] on some Empty cell makes a win for [humanMark],
    [simpleAIMove] returns the first such cell in row-major order; in
    particular it returns (2,2) when the opponent would win there and at
    no cell before it. *)
Theorem simpleAIMove_block (b : Board) (aiMark humanMark : mark) (rnd : Q) :
  wf_board b →
  (∀ q, ¬ winsAt b aiMark q) →
  (∃ q, winsAt b humanMark q) →
  (∃ p, winsAt b humanMark p ∧
        (∀ q, rowMajorLt q p → ¬ winsAt b humanMark q) ∧
        simpleAIMove b aiMark humanMark rnd = (Return (Some p), b)) ∧
  (winsAt b humanMark (2, 2) →
   (∀ q, rowMajorLt q (2, 2) → ¬ winsAt b humanMark q) →
   simpleAIMove b aiMark humanMark rnd = (Return (Some (2, 2)), b)).
Proof.
  intros Hwf Hai [q Hq]. rewrite simpleAIMove_run by done. unfold aiChoice.
  rewrite (proj2 (firstWinsAt_None b Hwf aiMark) Hai).
  destruct (firstWinsAt b humanMark) as [p|] eqn:Hp.
  - split.
    + apply firstWinsAt_Some in Hp as [Hp Hfirst]; [|done]. by exists p.
    + intros H22 Hfirst.
      by rewrite <- Hp, (proj2 (firstWinsAt_Some b Hwf humanMark (2, 2))).
  - destruct (proj1 (firstWinsAt_None b Hwf humanMark) Hp q Hq).
Qed.

Lemma simpleAIMove_block_witness :
  wf_board oneThreat ∧
  (∀ q, ¬ winsAt oneThreat O q) ∧
  winsAt oneThreat X (2, 2) ∧
  (∀ q, rowMajorLt q (2, 2) → ¬ winsAt oneThreat X q) ∧
  simpleAIMove oneThreat O X (1 # 2) = (Return (Some (2, 2)), oneThreat).
Proof.
  assert (wf_board oneThreat) as Hwf by wf_concrete.
  assert (∀ q, ¬ winsAt oneThreat O q) as Hai by (by apply no_winsAt).
  assert (winsAt oneThreat X (2, 2)) as H22.
  { split; [reflexivity|]. by exists ((0, 0), (1, 1), (2, 2)). }
  assert (∀ q, rowMajorLt q (2, 2) → ¬ winsAt oneThreat X q) as Hfirst.
  { assert (firstWinsAt oneThreat X = Some (2, 2)) as Hf by reflexivity.
    by apply firstWinsAt_Some in Hf as [_ Hf]. }
  split_and!; [done..|].
  by apply (simpleAIMove_block oneThreat O X (1 # 2) Hwf Hai (ex_intro _ _ H22)).
Defined.

(** C4. Centre tier: when neither a placement of [aiMark] nor one of
    [humanMark] wins and (1,1) is Empty, [simpleAIMove] returns (1,1); so
    it does for O on the board whose only mark is X at (0,0). *)
Theorem simpleAIMove_center (b : Board) (aiMark humanMark : mark) (rnd : Q) :
  wf_board b →
  (∀ q, ¬ winsAt b aiMark q) →
  (∀ q, ¬ winsAt b humanMark q) →
  EmptyCell b (1, 1) →
  simpleAIMove b aiMark humanMark rnd = (Return (Some (1, 1)), b) ∧
  simpleAIMove firstMove O X rnd = (Return (Some (1, 1)), firstMove).
Proof.
  intros Hwf Hai Hhu Hc. split.
  - rewrite simpleAIMove_run by done. unfold aiChoice.
    rewrite (proj2 (firstWinsAt_None b Hwf aiMark) Hai).
    rewrite (proj2 (firstWinsAt_None b Hwf humanMark) Hhu).
    by rewrite decide_True.
  - rewrite simpleAIMove_run by wf_concrete. reflexivity.
Qed.

Lemma simpleAIMove_center_witness :
  wf_board firstMove ∧
  (∀ q, ¬ winsAt firstMove O q) ∧
  (∀ q, ¬ winsAt firstMove X q) ∧
  EmptyCell firstMove (1, 1) ∧
  simpleAIMove firstMove O X (7 # 8) = (Return (Some (1, 1)), firstMove).
Proof.
  assert (wf_board firstMove) as Hwf by wf_concrete.
  assert (∀ q, ¬ winsAt firstMove O q) as Hai by (by apply no_winsAt).
  assert (∀ q, ¬ winsAt firstMove X q) as Hhu by (by apply no_winsAt).
  split_and!; [done|done|done|reflexivity|].
  by apply (simpleAIMove_center firstMove O X (7 # 8) Hwf Hai Hhu).
Defined.

(** ** Outcomes *)

Lemma every_cell_spec (b : Board) :
  forallb (λ c : cell, bool_decide (c ≠ None)) (concat b) = true ↔
  ∀ p c, cellAt b p = Some c → c ≠ None.
Proof.
  rewrite forallb_forall. split.
  - intros Hall [i j] c Hc. unfold cellAt in Hc. simpl in Hc.
    destruct (b !! i) as [r|] eqn:Hr; simpl in Hc; [|done].
    eapply bool_decide_eq_true, Hall, in_concat. exists r.
    split; apply list_elem_of_In; eapply list_elem_of_lookup_2; eassumption.
  - intros Hall c (r & Hr & Hc)%in_concat. apply bool_decide_eq_true.
    apply list_elem_of_In, list_elem_of_lookup in Hr as [i Hi].
    apply list_elem_of_In, list_elem_of_lookup in Hc as [j Hj].
    apply (Hall (i, j)). unfold cellAt. simpl. by rewrite Hi.
Qed.

Section Outcome.
Context (b : Board) (Hwf : wf_board b).

Lemma every_cell_full :
  forallb (λ c : cell, bool_decide (c ≠ None)) (concat b) = true ↔ full b.
Proof.
  rewrite every_cell_spec. unfold full, holds. split.
  - intros Hall p Hp. destruct (cellAt_is_Some b p Hwf Hp) as [[m|] Hc].
    + by exists m.
    + by destruct (Hall p None).
  - intros Hfull p c Hc. destruct (Hfull p) as [m Hm].
    + by eapply cellAt_inRange.
    + congruence.
Qed.

Lemma isDraw_true : isDraw b = Return true ↔ full b ∧ checkWinner b = Return None.
Proof.
  unfold isDraw. rewrite <- every_cell_full.
  destruct (forallb _ _); [|split; [done|by intros [? _]]].
  destruct (checkWinner b) as [[w|]|]; simpl; split; try done; by intros [_ ?].
Qed.

Lemma isDraw_total : ∃ d, isDraw b = Return d.
Proof.
  unfold isDraw. destruct (forallb _ _); [|eauto].
  destruct (checkWinner_total b Hwf) as [w ->]. simpl. eauto.
Qed.

Lemma isDraw_false :
  isDraw b = Return false ↔ (∃ p, EmptyCell b p) ∨ won b.
Proof.
  destruct isDraw_total as [d Hd].
  destruct (checkWinner_total b Hwf) as [w Hw]. unfold won.
  destruct d.
  - apply isDraw_true in Hd as Hd'. destruct Hd' as [Hfull Hnone].
    rewrite Hd, Hnone. split; [done|].
    intros [[p Hp]|(m & l & Hml)]; [|done].
    destruct (Hfull p) as [m Hm]; [by eapply cellAt_inRange|].
    unfold EmptyCell, holds in *. congruence.
  - split; [intros _|done].
    destruct w as [[m l]|]; [right; eauto|left].
    destruct (decide (Exists (EmptyCell b) cells)) as [He|Hne].
    + apply Exists_exists in He as (p & _ & Hp). by exists p.
    + assert (isDraw b = Return true); [|congruence].
      apply isDraw_true. split; [|done]. intros p Hp.
      destruct (cellAt_is_Some b p Hwf Hp) as [[m|] Hc]; [by exists m|].
      destruct Hne. apply Exists_exists. exists p. split; [|done].
      by apply elem_of_cells.
Qed.

Lemma evaluate_total : ∃ o, evaluate b = Return o.
Proof.
  unfold evaluate. destruct (checkWinner_total b Hwf) as [[[m l]|] ->]; simpl.
  - eauto.
  - destruct isDraw_total as [d ->]. simpl. eauto.
Qed.

End Outcome.

Lemma evaluate_Win (b : Board) m l :
  evaluate b = Return (Win m l) ↔ checkWinner b = Return (Some (m, l)).
Proof.
  unfold evaluate. destruct (checkWinner b) as [[[m' l']|]|]; simpl.
  - split; congruence.
  - destruct (isDraw b) as [[]|]; simpl; split; done.
  - split; done.
Qed.

Lemma evaluate_Draw (b : Board) :
  evaluate b = Return Draw ↔ checkWinner b = Return None ∧ drawn b.
Proof.
  unfold evaluate, drawn. destruct (checkWinner b) as [[[m' l']|]|]; simpl.
  - split; [done|by intros [? _]].
  - destruct (isDraw b) as [[]|]; simpl; split; try done; by intros [_ ?].
  - split; [done|by intros [? _]].
Qed.

Lemma evaluate_InProgress (b : Board) :
  evaluate b = Return InProgress ↔ inProgress b.
Proof.
  unfold evaluate, inProgress. destruct (checkWinner b) as [[[m' l']|]|]; simpl.
  - split; [done|by intros [? _]].
  - destruct (isDraw b) as [[]|]; simpl; split; try done; by intros [_ ?].
  - split; [done|by intros [? _]].
Qed.

(** C5. The outcome of a board is Draw exactly when each of its nine
    cells holds a mark and no line is held, that is when [checkWinner]
    finds no winner; [isDraw] answers [true] on exactly these boards.  A
    board with an Empty cell or with a winner is not a draw. *)
Theorem draw_characterisation (b : Board) :
  wf_board b →
  (evaluate b = Return Draw ↔ full b ∧ noLine b) ∧
  (isDraw b = Return true ↔ full b ∧ checkWinner b = Return None) ∧
  (checkWinner b = Return None ↔ noLine b) ∧
  ((∃ p, EmptyCell b p) ∨ won b → isDraw b = Return false ∧ evaluate b ≠ Return Draw).
Proof.
  intros Hwf.
  assert (checkWinner b = Return None ↔ noLine b) as Hnone.
  { apply firstWinner_None; [done|apply directions_inRange]. }
  split_and!.
  - rewrite evaluate_Draw. unfold drawn. rewrite isDraw_true by done.
    rewrite <- Hnone. tauto.
  - by apply isDraw_true.
  - done.
  - intros Hnot. apply isDraw_false in Hnot as Hf; [|done]. split; [done|].
    rewrite evaluate_Draw. unfold drawn. rewrite Hf. by intros [_ ?].
Qed.

Lemma draw_characterisation_witness :
  wf_board drawnBoard ∧ full drawnBoard ∧ noLine drawnBoard ∧
  evaluate drawnBoard = Return Draw.
Proof.
  assert (wf_board drawnBoard) as Hwf by wf_concrete.
  destruct (draw_characterisation drawnBoard Hwf) as (Hdraw & _ & Hnone & _).
  assert (evaluate drawnBoard = Return Draw) as He by reflexivity.
  apply Hdraw in He as [Hfull Hno]. done.
Defined.

(** C6. For every board exactly one of the three outcomes holds: it is
    won, it is drawn, or it is in progress; [evaluate] returns the one
    that holds, and the board of [getInitialBoard] is in progress. *)
Theorem outcome_trichotomy (b : Board) :
  wf_board b →
  ((won b ∧ ¬ drawn b ∧ ¬ inProgress b) ∨
   (¬ won b ∧ drawn b ∧ ¬ inProgress b) ∨
   (¬ won b ∧ ¬ drawn b ∧ inProgress b)) ∧
  (won b ↔ ∃ m l, evaluate b = Return (Win m l)) ∧
  (drawn b ↔ evaluate b = Return Draw) ∧
  (inProgress b ↔ evaluate b = Return InProgress) ∧
  (inProgress b ↔ noLine b ∧ ∃ p, EmptyCell b p) ∧
  evaluate getInitialBoard = Return InProgress.
Proof.
  intros Hwf.
  assert (checkWinner b = Return None ↔ noLine b) as Hnone.
  { apply firstWinner_None; [done|apply directions_inRange]. }
  destruct (checkWinner_total b Hwf) as [w Hw].
  destruct (isDraw_total b Hwf) as [d Hd].
  pose proof (isDraw_true b Hwf) as Htrue.
  pose proof (isDraw_false b Hwf) as Hfalse.
  unfold won, drawn, inProgress in *. split_and!.
  - rewrite Hw, Hd in *. destruct w as [[m l]|].
    + left. split_and!; [eauto| |by intros [? _]].
      intros Hdr. apply Htrue in Hdr as [_ ?]. done.
    + destruct d.
      * right; left. split_and!; [by intros (m & l & ?)|done|by intros [_ ?]].
      * right; right. split_and!; [by intros (m & l & ?)|done..].
  - split; intros (m & l & Hml); exists m, l; by apply evaluate_Win.
  - rewrite evaluate_Draw. unfold drawn. split; [|by intros [_ ?]].
    intros Hdr. split; [|done]. by apply Htrue in Hdr as [_ ?].
  - symmetry. apply evaluate_InProgress.
  - rewrite Hfalse, <- Hnone. split.
    + intros [Hn [He|(m & l & Hml)]]; [done|congruence].
    + intros [Hn He]. split; [done|by left].
  - reflexivity.
Qed.

Lemma outcome_trichotomy_witness :
  wf_board threeThreats ∧
  ¬ won threeThreats ∧ ¬ drawn threeThreats ∧ inProgress threeThreats.
Proof.
  assert (wf_board threeThreats) as Hwf by wf_concrete.
  destruct (outcome_trichotomy threeThreats Hwf) as (Hone & _ & _ & Hin & _).
  assert (inProgress threeThreats) as Hp by (by apply Hin).
  split; [done|].
  destruct Hone as [(_ & _ & Hn)|[(_ & _ & Hn)|(Hw & Hd & _)]]; done.
Defined.

(** ** The move selection on boards without a move, and its footprint *)

Lemma full_no_EmptyCell (b : Board) :
  wf_board b → full b → ∀ q, ¬ EmptyCell b q.
Proof.
  intros Hwf Hfull q Hq. destruct (Hfull q) as [m Hm].
  - by eapply cellAt_inRange.
  - unfold EmptyCell, holds in *. congruence.
Qed.

Lemma jsIndex_in_range {A} (xs : list A) (k : Z) :
  (0 ≤ k < Z.of_nat (length xs))%Z → ∃ x, jsIndex xs k = Some x ∧ x ∈ xs.
Proof.
  intros Hk. unfold jsIndex.
  destruct (k <? 0)%Z eqn:Hneg; [apply Z.ltb_lt in Hneg; lia|].
  destruct (lookup_lt_is_Some_2 xs (Z.to_nat k)) as [x Hx]; [lia|].
  exists x. split; [done|]. by eapply list_elem_of_lookup_2.
Qed.

(** With an Empty cell on the board, every tier that answers answers
    with an Empty cell, and the last one always answers: [rnd] is a
    binary64 value of [0, 1), and the index it gives is in range. *)
Lemma aiChoice_Some (b : Board) (aiMark humanMark : mark) (rnd : Q) :
  wf_board b → (∃ q, EmptyCell b q) →
  binary64 rnd → (0 <= rnd)%Q → (rnd < 1)%Q →
  ∃ p, aiChoice b aiMark humanMark rnd = Some p ∧ EmptyCell b p.
Proof.
  intros Hwf [q Hq] Hd H0 H1. unfold aiChoice.
  destruct (firstWinsAt b aiMark) as [p|] eqn:Hai.
  { exists p. split; [done|]. by apply firstWinsAt_Some in Hai as [[? _] _]. }
  destruct (firstWinsAt b humanMark) as [p|] eqn:Hhu.
  { exists p. split; [done|]. by apply firstWinsAt_Some in Hhu as [[? _] _]. }
  destruct (decide (EmptyCell b (1, 1))) as [Hc|_]; [by exists (1, 1)|].
  destruct (jsIndex_in_range (emptiesOf b)
              (randomIndex rnd (length (emptiesOf b)))) as (p & Hp & Hin).
  - apply randomIndex_range; [done|by apply binary64_below_one|].
    apply (elem_of_emptiesOf b Hwf) in Hq.
    destruct (emptiesOf b); [by apply elem_of_nil in Hq|simpl; lia].
  - exists p. split; [done|]. by apply (elem_of_emptiesOf b Hwf).
Qed.

(** C8, as stated, fails: on a board that is terminal because X holds
    row 0, [simpleAIMove] returns the coordinate (1,2). *)
Lemma simpleAIMove_terminal_counterexample :
  wf_board wonBoard ∧
  evaluate wonBoard = Return (Win X (row 0)) ∧
  simpleAIMove wonBoard O X (1 # 2) = (Return (Some (1, 2)), wonBoard).
Proof. split_and!; [wf_concrete|reflexivity..]. Qed.

(** C8, amended. On a board without an Empty cell, as every drawn board
    is, [simpleAIMove] returns [undefined] and no coordinate, whatever
    the random number is.  On every other board, one with a winner
    included, it returns the coordinate of an Empty cell, for every
    binary64 value of [0, 1) that [Math.random()] yields.  Nothing is
    thrown in either case. *)
Theorem simpleAIMove_full_board (b : Board) (aiMark humanMark : mark) (rnd : Q) :
  wf_board b →
  (full b → simpleAIMove b aiMark humanMark rnd = (Return None, b)) ∧
  ((∃ q, EmptyCell b q) → binary64 rnd → (0 <= rnd)%Q → (rnd < 1)%Q →
   ∃ p, simpleAIMove b aiMark humanMark rnd = (Return (Some p), b) ∧ EmptyCell b p).
Proof.
  intros Hwf. rewrite simpleAIMove_run by done. split.
  - intros Hfull. pose proof (full_no_EmptyCell b Hwf Hfull) as Hne.
    unfold aiChoice.
    rewrite !(proj2 (firstWinsAt_None b Hwf _)) by (by intros q [Hq _]; eapply Hne).
    rewrite decide_False by apply Hne.
    assert (emptiesOf b = []) as ->.
    { apply elem_of_nil_inv. intros p Hp. eapply Hne, elem_of_emptiesOf; done. }
    by rewrite randomIndex_zero.
  - intros Hq Hd H0 H1.
    destruct (aiChoice_Some b aiMark humanMark rnd Hwf Hq Hd H0 H1) as (p & -> & Hp).
    by exists p.
Qed.

Lemma drawnBoard_full : full drawnBoard.
Proof.
  intros [i j] [Hi Hj]. simpl in Hi, Hj.
  do 3 (destruct i as [|i]; [do 3 (destruct j as [|j]; [by eexists|]); lia|]). lia.
Qed.

Lemma simpleAIMove_full_board_witness :
  wf_board drawnBoard ∧ full drawnBoard ∧
  simpleAIMove drawnBoard O X (1 # 2) = (Return None, drawnBoard).
Proof.
  assert (wf_board drawnBoard) as Hwf by wf_concrete.
  split_and!; [done|apply drawnBoard_full|].
  apply (proj1 (simpleAIMove_full_board drawnBoard O X (1 # 2) Hwf) drawnBoard_full).
Defined.

(** C9. Whenever [simpleAIMove] returns, the board it was given is what
    it was before the call: each mark put on a cell to test it has been
    taken off again.  On a board of three by three it always returns. *)
Theorem simpleAIMove_leaves_board (b : Board) (aiMark humanMark : mark) (rnd : Q) :
  (∀ r b', simpleAIMove b aiMark humanMark rnd = (Return r, b') → b' = b) ∧
  (wf_board b → ∃ r, simpleAIMove b aiMark humanMark rnd = (Return r, b)).
Proof.
  split.
  - intros r b'. apply simpleAIMove_frame.
  - intros Hwf. eexists. by apply simpleAIMove_run.
Qed.

Lemma simpleAIMove_leaves_board_witness :
  wf_board threeThreats ∧
  ∃ r, simpleAIMove threeThreats O X (1 # 2) = (Return r, threeThreats).
Proof.
  assert (wf_board threeThreats) as Hwf by wf_concrete.
  split; [done|].
  by apply (proj2 (simpleAIMove_leaves_board threeThreats O X (1 # 2))).
Defined.

(** C10. On a board with an Empty cell [simpleAIMove] returns a pair
    [(row, col)] with both numbers among 0, 1, 2 and with
    [board[row][col]] Empty, for every value [Math.random()] can have: a
    binary64 value that is at least 0 and below 1.  The index is taken
    from the binary64 product of that value and the number of Empty
    cells. *)
Theorem simpleAIMove_valid_cell (b : Board) (aiMark humanMark : mark) (rnd : Q) :
  wf_board b →
  (∃ q, EmptyCell b q) →
  binary64 rnd → (0 <= rnd)%Q → (rnd < 1)%Q →
  ∃ i j, simpleAIMove b aiMark humanMark rnd = (Return (Some (i, j)), b) ∧
         i < 3 ∧ j < 3 ∧ EmptyCell b (i, j).
Proof.
  intros Hwf Hq Hd H0 H1. rewrite simpleAIMove_run by done.
  destruct (aiChoice_Some b aiMark humanMark rnd Hwf Hq Hd H0 H1) as ([i j] & -> & Hp).
  exists i, j. pose proof (cellAt_inRange b _ _ Hwf Hp) as [Hi Hj]. done.
Qed.

Lemma simpleAIMove_valid_cell_witness :
  wf_board centreTaken ∧ EmptyCell centreTaken (0, 0) ∧
  binary64 nearFourSevenths ∧ (0 <= nearFourSevenths)%Q ∧ (nearFourSevenths < 1)%Q ∧
  ∃ i j, simpleAIMove centreTaken O X nearFourSevenths
           = (Return (Some (i, j)), centreTaken) ∧
         i < 3 ∧ j < 3 ∧ EmptyCell centreTaken (i, j).
Proof.
  assert (wf_board centreTaken) as Hwf by wf_concrete.
  assert (EmptyCell centreTaken (0, 0)) as He by reflexivity.
  assert (binary64 nearFourSevenths) as Hd by apply binary64_nearFourSevenths.
  split_and!; [done|done|done|done|done|].
  by apply (simpleAIMove_valid_cell centreTaken O X nearFourSevenths
              Hwf (ex_intro _ _ He) Hd).
Defined.

(** With seven Empty cells and 0.5714285714285714 for [Math.random()]
    the binary64 product is 4 and the fifth Empty cell is returned; the
    exact product is below 4.  With 0.75 the product is 5.25. *)
Example simpleAIMove_centreTaken_rounds :
  length (emptiesOf centreTaken) = 7 ∧
  simpleAIMove centreTaken O X nearFourSevenths
    = (Return (Some (1, 2)), centreTaken).
Proof. split; by vm_compute. Qed.

Example simpleAIMove_centreTaken :
  simpleAIMove centreTaken O X (3 # 4) = (Return (Some (2, 0)), centreTaken).
Proof. by vm_compute. Qed.

(** ** The click handler *)

Lemma jsIndex_Some {A} (xs : list A) (k : Z) x :
  jsIndex xs k = Some x ↔ (0 ≤ k)%Z ∧ xs !! Z.to_nat k = Some x.
Proof.
  unfold jsIndex. destruct (k <? 0)%Z eqn:Hneg.
  - apply Z.ltb_lt in Hneg. split; [done|]. intros [? _]. lia.
  - apply Z.ltb_ge in Hneg. split; [done|]. by intros [_ ?].
Qed.

Lemma jsIndex_None {A} (xs : list A) (k : Z) :
  jsIndex xs k = None ↔ ¬ (0 ≤ k < Z.of_nat (length xs))%Z.
Proof.
  unfold jsIndex. destruct (k <? 0)%Z eqn:Hneg.
  - apply Z.ltb_lt in Hneg. split; [lia|done].
  - apply Z.ltb_ge in Hneg. rewrite lookup_ge_None. lia.
Qed.

Section ReadCellAt.
Context (b : Board) (Hwf : wf_board b).

Lemma readCellAt_TypeError row col :
  readCellAt b row col = TypeError ↔ ¬ (0 ≤ row < 3)%Z.
Proof.
  unfold readCellAt. destruct (jsIndex b row) as [r|] eqn:Hr.
  - split; [done|]. intros Hout. exfalso. apply Hout.
    apply jsIndex_Some in Hr as [? Hr]. apply lookup_lt_Some in Hr.
    destruct Hwf as [Hlen _]. lia.
  - split; [intros _|done]. apply jsIndex_None in Hr.
    destruct Hwf as [Hlen _]. lia.
Qed.

Lemma readCellAt_Null row col :
  readCellAt b row col = Return Null ↔
  (0 ≤ row < 3)%Z ∧ (0 ≤ col < 3)%Z ∧ EmptyCell b (Z.to_nat row, Z.to_nat col).
Proof.
  unfold readCellAt, EmptyCell, cellAt. simpl. split.
  - destruct (jsIndex b row) as [r|] eqn:Hr; [|done].
    apply jsIndex_Some in Hr as [Hrow Hr]. rewrite Hr. simpl.
    pose proof (wf_row b _ _ Hwf Hr) as Hlen. apply lookup_lt_Some in Hr as Hlt.
    destruct (jsIndex r col) as [c|] eqn:Hc; [|done].
    apply jsIndex_Some in Hc as [Hcol Hc]. apply lookup_lt_Some in Hc as Hlt'.
    destruct c as [m|]; [done|]. intros _.
    destruct Hwf as [Hb _]. split_and!; [lia..|done].
  - intros ([Hrow _] & [Hcol _] & He).
    destruct (b !! Z.to_nat row) as [r|] eqn:Hr; simpl in He; [|done].
    rewrite (proj2 (jsIndex_Some b row r)) by done.
    by rewrite (proj2 (jsIndex_Some r col None)).
Qed.

End ReadCellAt.

(** The guard of [handleClick], on any state. *)
Lemma handleClick_guard (s : state) (row col : Z) :
  disableBoard s = true ∨ is_Some (winnerInfo s) ∨
  readCellAt (board s) row col ≠ Return Null →
  (handleClick s row col = Completed s [] ∧
   (disableBoard s = true ∨ readCellAt (board s) row col ≠ TypeError)) ∨
  (handleClick s row col = Threw s ∧
   disableBoard s = false ∧ readCellAt (board s) row col = TypeError).
Proof.
  intros Hrej. unfold handleClick.
  destruct (disableBoard s); [left; split; [done|by left]|].
  destruct (readCellAt (board s) row col) as [v|]; [|by right].
  left. split; [|by right].
  destruct (decide (v = Null)) as [->|Hv].
  - rewrite bool_decide_eq_false_2 by (by intros ?).
    destruct Hrej as [?|[Hw|?]]; [done| |done].
    by rewrite bool_decide_eq_true_2.
  - by rewrite bool_decide_eq_true_2.
Qed.

(** *** What the pages the handlers can reach have in common *)

Lemma writeCell_wf (b b' : Board) i j c :
  wf_board b → writeCell b i j c = Return b' → wf_board b'.
Proof.
  intros Hwf. unfold writeCell.
  destruct (b !! i) as [r|] eqn:Hr; [|done]. intros [= <-].
  pose proof (place_wf b (i, j) c Hwf) as Hp. unfold place in Hp. simpl in Hp.
  by rewrite Hr in Hp.
Qed.

(** The part both handlers share: the state after [setBoard(newBoard)]
    and the branch taken on the outcome of [newBoard]. *)
Lemma after_move_consistent (s : state) (newBoard : Board) (o : GameOutcome) :
  wf_board newBoard → evaluate newBoard = Return o →
  (∀ m l,
     consistent (setDisableBoard
                   (setStatus (setWinnerInfo (setBoard s newBoard) (Some (m, l)))
                              (String.append "Winner: " (markString m))) true)) ∧
  consistent (setDisableBoard
                (setStatus (setWinnerInfo (setBoard s newBoard) None) "Draw!") true) ∧
  consistent (setDisableBoard (setXIsNext (setBoard s newBoard) false) true) ∧
  (o = InProgress →
   ∀ x t d, consistent (setDisableBoard (setStatus (setXIsNext (setBoard s newBoard) x) t) d) ∧
            consistent (setStatus (setXIsNext (setBoard s newBoard) x) t)).
Proof.
  intros Hwf He. unfold consistent. simpl. split_and!; try done.
  intros -> x t d. by split_and!.
Qed.

Lemma handleClick_inv (s : state) (row col : Z) :
  consistent s → outcomeInv (handleClick s row col).
Proof.
  intros Hs. pose proof Hs as [Hwf _]. unfold handleClick.
  destruct (disableBoard s) eqn:Hd; [by split|].
  destruct (readCellAt (board s) row col) as [v|]; [|done].
  destruct (bool_decide (v ≠ Null)); [by split|].
  destruct (bool_decide (is_Some (winnerInfo s))); [by split|].
  destruct (mode s) as [md|]; [|by split].
  destruct (bool_decide (md = ai) && negb (xIsNext s)); [by split|].
  destruct (writeCell _ _ _ _) as [newBoard|] eqn:Hw; [|done].
  apply writeCell_wf in Hw; [|done].
  destruct (evaluate_total newBoard Hw) as [o Ho]. rewrite Ho.
  destruct (after_move_consistent s newBoard o Hw Ho) as (Hwin & Hdraw & Hai & Hgo).
  destruct o as [|m l|].
  - destruct md; simpl.
    + split; [done|]. by apply Forall_singleton.
    + split; [|done]. eapply proj2, (Hgo eq_refl _ _ true).
  - by split.
  - by split.
Qed.

Lemma aiMove_inv (s : state) (t : timer) (rnd : Q) :
  consistent s → wf_board (currentBoard t) → outcomeInv (aiMove s t rnd).
Proof.
  intros Hs Ht. unfold aiMove.
  destruct (bool_decide (is_Some (seenWinnerInfo t))); [by split|].
  rewrite simpleAIMove_run by done.
  destruct (aiChoice _ _ _ _) as [[aiRow aiCol]|]; [|done].
  destruct (writeCell _ _ _ _) as [newBoard|] eqn:Hw; [|done].
  apply writeCell_wf in Hw; [|done].
  destruct (evaluate_total newBoard Hw) as [o Ho]. rewrite Ho.
  destruct (after_move_consistent s newBoard o Hw Ho) as (Hwin & Hdraw & _ & Hgo).
  destruct o as [|m l|].
  - split; [|done]. eapply proj1, (Hgo eq_refl).
  - by split.
  - by split.
Qed.

Lemma fresh_board_consistent (s : state) x md t w :
  consistent (setStatus
                (setDisableBoard
                   (setWinnerInfo (setMode (setXIsNext (setBoard s getInitialBoard) x) md) w)
                   false) t).
Proof. split; [wf_concrete|]. simpl. by intros []. Qed.

Lemma settle_inv (o : outcome) (timers : list timer) :
  outcomeInv o → Forall (λ t, wf_board (currentBoard t)) timers →
  pageInv (settle o timers).
Proof.
  destruct o as [s started|s]; simpl.
  - intros [Hs Hst] Hts. split; [done|]. by apply Forall_app.
  - intros Hs Hts. by split.
Qed.

Lemma step_inv (p : page) (e : event) : pageInv p → pageInv (step p e).
Proof.
  intros [Hs Hts]. destruct e as [row col|modeVal| |k rnd]; simpl.
  - apply settle_inv; [by apply handleClick_inv|done].
  - split; [apply fresh_board_consistent|done].
  - split; [|done]. unfold handleRestart.
    apply (fresh_board_consistent (app p) true (mode (app p)) _ None).
  - destruct (pending p !! k) as [t|] eqn:Hk; [|by split].
    apply settle_inv.
    + apply aiMove_inv; [done|].
      rewrite Forall_forall in Hts. eapply Hts, list_elem_of_lookup_2, Hk.
    + by apply Forall_delete.
Qed.

Lemma reachable_inv (p : page) : reachable p → pageInv p.
Proof.
  induction 1 as [|p e Hp IH].
  - split; [|constructor]. split; [wf_concrete|]. simpl. by intros [].
  - by apply step_inv.
Qed.

Lemma afterFirstClick_reachable : reachable afterFirstClick.
Proof. unfold afterFirstClick. repeat apply reach_step. apply reach_init. Qed.

Lemma afterWin_reachable : reachable afterWin.
Proof. unfold afterWin. do 4 apply reach_step. apply afterFirstClick_reachable. Qed.

(** C7, as stated, fails: a click on the occupied cell (0,0) raises
    nothing.  The handler returns, as it does for the accepted click on
    (1,1); the only difference is that no setter was called. *)
Lemma handleClick_occupied_counterexample :
  reachable afterFirstClick ∧
  holds (board (app afterFirstClick)) (0, 0) X ∧
  handleClick (app afterFirstClick) 0 0 = Completed (app afterFirstClick) [] ∧
  (∀ s, handleClick (app afterFirstClick) 0 0 ≠ Threw s) ∧
  (∃ s, handleClick (app afterFirstClick) 1 1 = Completed s []).
Proof.
  split_and!; [apply afterFirstClick_reachable|by vm_compute..|].
  eexists. by vm_compute.
Qed.

Example handleClick_row_out_of_range :
  handleClick (app afterFirstClick) 3 1 = Threw (app afterFirstClick) ∧
  handleClick (app afterFirstClick) (-1) 1 = Threw (app afterFirstClick).
Proof. by vm_compute. Qed.

Example handleClick_col_out_of_range :
  handleClick (app afterFirstClick) 1 3 = Completed (app afterFirstClick) [] ∧
  handleClick (app afterFirstClick) 1 (-1) = Completed (app afterFirstClick) [].
Proof. by vm_compute. Qed.

(** C7, amended. When the row or the column is outside 0..2, or the
    target cell holds a mark, or the page is one the handlers can reach
    and the game on its board is over, [handleClick] calls no setter and
    starts no timer: the state, its board included, stays as it is and no
    new board is made.  It does so by returning; the one exception is a
    row outside 0..2 on a board that is not disabled, where the read of
    the cell throws a [TypeError]. *)
Theorem handleClick_rejects (s : state) (row col : Z) :
  wf_board (board s) →
  ¬ (0 ≤ row < 3)%Z ∨ ¬ (0 ≤ col < 3)%Z ∨
  (∃ m, holds (board s) (Z.to_nat row, Z.to_nat col) m) ∨
  (evaluate (board s) ≠ Return InProgress ∧ ∃ p, reachable p ∧ app p = s) →
  (handleClick s row col = Completed s [] ∨ handleClick s row col = Threw s) ∧
  (handleClick s row col = Threw s ↔ disableBoard s = false ∧ ¬ (0 ≤ row < 3)%Z) ∧
  (∀ timers, settle (handleClick s row col) timers = mkPage s timers).
Proof.
  intros Hwf Hrej.
  assert (disableBoard s = true ∨ is_Some (winnerInfo s) ∨
          readCellAt (board s) row col ≠ Return Null) as Hguard.
  { destruct Hrej as [Hr|[Hc|[[m Hm]|[Hover (p & Hp & <-)]]]].
    - right; right. by intros (? & _)%readCellAt_Null.
    - right; right. by intros (_ & ? & _)%readCellAt_Null.
    - right; right. intros (_ & _ & He)%readCellAt_Null; [|done].
      unfold EmptyCell, holds in *. congruence.
    - left. apply reachable_inv in Hp as [[_ Hd] _]. by apply Hd. }
  pose proof (readCellAt_TypeError (board s) Hwf row col) as Hthrow.
  destruct (handleClick_guard s row col Hguard)
    as [[-> Hwhy]|(-> & Hd & Hread)].
  - split_and!; [by left| |intros timers; simpl; by rewrite app_nil_r].
    split; [done|]. intros [Hd Hrow]. apply Hthrow in Hrow.
    destruct Hwhy; congruence.
  - split_and!; [by right| |done].
    split; [intros _|done]. split; [done|by apply Hthrow].
Qed.

Lemma afterWin_state : app afterWin = wonState.
Proof. by vm_compute. Qed.

Lemma handleClick_rejects_witness :
  wf_board (board wonState) ∧
  evaluate (board wonState) = Return (Win X ((0, 0), (0, 1), (0, 2))) ∧
  (∃ p, reachable p ∧ app p = wonState) ∧
  EmptyCell (board wonState) (2, 2) ∧
  (handleClick wonState 2 2 = Completed wonState [] ∨
   handleClick wonState 2 2 = Threw wonState) ∧
  (handleClick wonState 2 2 = Threw wonState ↔
   disableBoard wonState = false ∧ ¬ (0 ≤ 2 < 3)%Z) ∧
  (∀ timers, settle (handleClick wonState 2 2) timers = mkPage wonState timers).
Proof.
  assert (wf_board (board wonState)) as Hwf by wf_concrete.
  assert (∃ p, reachable p ∧ app p = wonState) as Hreach.
  { exists afterWin. split; [apply afterWin_reachable|apply afterWin_state]. }
  split_and!; [done|reflexivity|done|reflexivity|..];
    apply (handleClick_rejects wonState 2 2 Hwf);
    (right; right; right; split; [done|]; exact Hreach).
Defined.

(** * The rest of the component: properties *)

(** ** Counting marks *)

Lemma wf_board_cells (b : Board) :
  wf_board b →
  ∃ c00 c01 c02 c10 c11 c12 c20 c21 c22 : cell,
    b = [[c00; c01; c02]; [c10; c11; c12]; [c20; c21; c22]].
Proof.
  intros [Hlen Hrows].
  destruct b as [|r0 [|r1 [|r2 [|r3 b]]]]; try done.
  apply Forall_cons in Hrows as [H0 Hrows].
  apply Forall_cons in Hrows as [H1 Hrows].
  apply Forall_cons in Hrows as [H2 _].
  destruct r0 as [|c00 [|c01 [|c02 [|? ?]]]]; try done.
  destruct r1 as [|c10 [|c11 [|c12 [|? ?]]]]; try done.
  destruct r2 as [|c20 [|c21 [|c22 [|? ?]]]]; try done.
  by exists c00, c01, c02, c10, c11, c12, c20, c21, c22.
Qed.

Lemma markCount_place (b : Board) (p : coord) (m mk : mark) :
  wf_board b → EmptyCell b p →
  markCount m (place b p (Some mk)) =
  (if bool_decide (m = mk) then 1 else 0) + markCount m b.
Proof.
  intros Hwf He. pose proof (cellAt_inRange b p _ Hwf He) as [Hi Hj].
  destruct (wf_board_cells b Hwf)
    as (c00 & c01 & c02 & c10 & c11 & c12 & c20 & c21 & c22 & ->).
  destruct p as [i j]. simpl in Hi, Hj.
  assert (bool_decide (Some mk = Some m) = bool_decide (m = mk)) as Hmk.
  { apply bool_decide_ext. split; congruence. }
  unfold EmptyCell, cellAt in He.
  do 3 (destruct i as [|i]; [do 3 (destruct j as [|j];
    [simpl in He; injection He as ->; unfold markCount, place; simpl;
     rewrite Hmk; lia|]); lia|]).
  lia.
Qed.

(** ** Lines and placements *)

Section Placement.
Context (b : Board) (p : coord) (mk : mark) (Hwf : wf_board b) (Hp : EmptyCell b p).

Lemma holds_place_inv q m :
  holds (place b p (Some mk)) q m → (q = p ∧ m = mk) ∨ (q ≠ p ∧ holds b q m).
Proof.
  unfold holds. destruct (decide (q = p)) as [->|Hne].
  - rewrite (cellAt_place_eq b p (Some mk) None Hp). intros [= ->]. by left.
  - rewrite cellAt_place_ne by done. by right.
Qed.

Lemma holds_place_keep q m : holds b q m → holds (place b p (Some mk)) q m.
Proof.
  unfold holds. intros Hq. rewrite cellAt_place_ne; [done|].
  intros ->. unfold EmptyCell in Hp. congruence.
Qed.

Lemma lineHolds_place_keep l m :
  lineHolds b l m → lineHolds (place b p (Some mk)) l m.
Proof. intros (H1 & H2 & H3). split_and!; by apply holds_place_keep. Qed.

(** A line held after the placement was held before it, or it runs
    through the new mark and is held by it. *)
Lemma lineHolds_place_inv l m :
  lineHolds (place b p (Some mk)) l m →
  lineHolds b l m ∨ (m = mk ∧ p ∈ lineCells l).
Proof.
  intros (H1 & H2 & H3). unfold lineCells.
  apply holds_place_inv in H1 as [[<- ->]|[_ H1]]; [right; split; [done|by repeat constructor]|].
  apply holds_place_inv in H2 as [[<- ->]|[_ H2]]; [right; split; [done|by repeat constructor]|].
  apply holds_place_inv in H3 as [[<- ->]|[_ H3]]; [right; split; [done|by repeat constructor]|].
  by left.
Qed.

End Placement.

Lemma checkWinner_None_noLine (b : Board) :
  wf_board b → checkWinner b = Return None ↔ noLine b.
Proof. intros Hwf. apply firstWinner_None; [done|apply directions_inRange]. Qed.

Lemma checkWinner_Some_holds (b : Board) m l :
  wf_board b → checkWinner b = Return (Some (m, l)) →
  l ∈ directions ∧ lineHolds b l m.
Proof.
  intros Hwf Hw.
  apply firstWinner_Some in Hw as (k & Hk & Hl & _); [|done|apply directions_inRange].
  split; [by eapply list_elem_of_lookup_2|done].
Qed.

(** On a board without a held line, a placement wins exactly when it
    completes a line. *)
Lemma winsAt_noLine (b : Board) (mk : mark) (p : coord) :
  wf_board b → noLine b →
  winsAt b mk p ↔
  EmptyCell b p ∧ ∃ l, l ∈ directions ∧ lineHolds (place b p (Some mk)) l mk.
Proof.
  intros Hwf Hno. split.
  - intros [He (l & Hl)]. split; [done|]. exists l.
    by apply checkWinner_Some_holds; [apply place_wf|].
  - intros [He (l & Hin & Hl)]. split; [done|].
    destruct (checkWinner_total (place b p (Some mk))) as [[[m' l']|] Hw];
      [by apply place_wf| |].
    + apply checkWinner_Some_holds in Hw as Hw'; [|by apply place_wf].
      destruct Hw' as [Hin' Hl'].
      apply (lineHolds_place_inv b p mk He) in Hl' as [Hold|[-> _]]; [|by exists l'].
      by destruct (Hno l' m').
    + apply checkWinner_None_noLine in Hw; [|by apply place_wf].
      by destruct (Hw l mk).
Qed.

(** ** More on the move selection *)

Lemma jsIndex_elem_of {A} (xs : list A) (k : Z) x : jsIndex xs k = Some x → x ∈ xs.
Proof. intros [_ Hx]%jsIndex_Some. by eapply list_elem_of_lookup_2. Qed.

(** Whatever the random number is, a cell that is returned is Empty. *)
Lemma aiChoice_EmptyCell (b : Board) (aiMark humanMark : mark) (rnd : Q) p :
  wf_board b → aiChoice b aiMark humanMark rnd = Some p → EmptyCell b p.
Proof.
  intros Hwf. unfold aiChoice.
  destruct (firstWinsAt b aiMark) as [c|] eqn:Hai.
  { intros [= <-]. by apply firstWinsAt_Some in Hai as [[? _] _]. }
  destruct (firstWinsAt b humanMark) as [c|] eqn:Hhu.
  { intros [= <-]. by apply firstWinsAt_Some in Hhu as [[? _] _]. }
  destruct (decide (EmptyCell b (1, 1))) as [Hc|_]; [by intros [= <-]|].
  intros Hp%jsIndex_elem_of. by apply (elem_of_emptiesOf b Hwf).
Qed.

Lemma rowMajorLt_irrefl p : ¬ rowMajorLt p p.
Proof. unfold rowMajorLt. lia. Qed.

(** X1. Blocking works against a single threat.  On a board without a
    held line where the AI has no winning cell and the opponent exactly
    one, [simpleAIMove] returns that cell, and once the AI's mark is on
    it the board still has no held line and the opponent has no winning
    cell left. *)
Theorem simpleAIMove_block_defuses
    (b : Board) (aiMark humanMark : mark) (rnd : Q) (p : coord) :
  wf_board b →
  aiMark ≠ humanMark →
  checkWinner b = Return None →
  (∀ q, ¬ winsAt b aiMark q) →
  winsAt b humanMark p →
  (∀ q, winsAt b humanMark q → q = p) →
  simpleAIMove b aiMark humanMark rnd = (Return (Some p), b) ∧
  checkWinner (place b p (Some aiMark)) = Return None ∧
  ∀ q, ¬ winsAt (place b p (Some aiMark)) humanMark q.
Proof.
  intros Hwf Hne Hnone Hai Hp Honly.
  pose proof Hp as [He _].
  apply checkWinner_None_noLine in Hnone; [|done].
  assert (wf_board (place b p (Some aiMark))) as Hwf' by (by apply place_wf).
  assert (noLine (place b p (Some aiMark))) as Hno'.
  { intros l m Hin Hl.
    apply (lineHolds_place_inv b p aiMark He) in Hl as Hl'.
    destruct Hl' as [Hold|[-> _]]; [by destruct (Hnone l m)|].
    apply (Hai p), winsAt_noLine; [done..|]. split; [done|by exists l]. }
  split_and!.
  - rewrite simpleAIMove_run by done. unfold aiChoice.
    rewrite (proj2 (firstWinsAt_None b Hwf aiMark) Hai).
    rewrite (proj2 (firstWinsAt_Some b Hwf humanMark p)); [done|].
    split; [done|]. intros q Hlt Hq. apply Honly in Hq as ->.
    by apply rowMajorLt_irrefl in Hlt.
  - by apply checkWinner_None_noLine.
  - intros q Hq. apply winsAt_noLine in Hq as [Hq (l & Hin & Hl)]; [|done..].
    assert (q ≠ p) as Hqp.
    { intros ->. unfold EmptyCell in Hq.
      rewrite (cellAt_place_eq b p (Some aiMark) None He) in Hq. done. }
    assert (EmptyCell b q) as Hqb.
    { unfold EmptyCell in *. by rewrite cellAt_place_ne in Hq. }
    apply Hqp, Honly, winsAt_noLine; [done..|]. split; [done|]. exists l.
    split; [done|].
    assert (∀ c, holds (place (place b p (Some aiMark)) q (Some humanMark)) c humanMark →
                 holds (place b q (Some humanMark)) c humanMark) as Hcell.
    { intros c Hc. unfold holds in *. destruct (decide (c = q)) as [->|Hcq].
      - by apply (cellAt_place_eq b q (Some humanMark) None).
      - rewrite cellAt_place_ne in Hc |- * by done.
        destruct (decide (c = p)) as [->|Hcp].
        + rewrite (cellAt_place_eq b p (Some aiMark) None He) in Hc. congruence.
        + by rewrite cellAt_place_ne in Hc. }
    destruct Hl as (H1 & H2 & H3). split_and!; by apply Hcell.
Qed.

Lemma simpleAIMove_block_defuses_witness :
  wf_board oneThreat ∧ O ≠ X ∧ checkWinner oneThreat = Return None ∧
  (∀ q, ¬ winsAt oneThreat O q) ∧ winsAt oneThreat X (2, 2) ∧
  (∀ q, winsAt oneThreat X q → q = (2, 2)) ∧
  simpleAIMove oneThreat O X (1 # 2) = (Return (Some (2, 2)), oneThreat) ∧
  checkWinner (place oneThreat (2, 2) (Some O)) = Return None ∧
  ∀ q, ¬ winsAt (place oneThreat (2, 2) (Some O)) X q.
Proof.
  assert (wf_board oneThreat) as Hwf by wf_concrete.
  assert (∀ q, ¬ winsAt oneThreat O q) as Hai by (by apply no_winsAt).
  assert (winsAt oneThreat X (2, 2)) as H22.
  { split; [reflexivity|]. by exists ((0, 0), (1, 1), (2, 2)). }
  assert (∀ q, winsAt oneThreat X q → q = (2, 2)) as Honly.
  { intros [i j] Hq. pose proof (winsAt_inRange _ Hwf _ _ Hq) as [Hi Hj].
    apply winsAtb_spec in Hq. simpl in Hi, Hj.
    do 3 (destruct i as [|i]; [do 3 (destruct j as [|j]; [by vm_compute in Hq|]); lia|]).
    lia. }
  split_and!; [done|done|reflexivity|done|done|done|..];
    by apply (simpleAIMove_block_defuses oneThreat O X (1 # 2) (2, 2) Hwf).
Defined.

(** X2. The random number matters in the last tier only: when the AI or
    the opponent has a winning cell, or the centre is Empty, the call
    returns the same cell for every random number. *)
Theorem simpleAIMove_random_last_tier_only
    (b : Board) (aiMark humanMark : mark) (rnd rnd' : Q) :
  wf_board b →
  (∃ q, winsAt b aiMark q) ∨ (∃ q, winsAt b humanMark q) ∨ EmptyCell b (1, 1) →
  simpleAIMove b aiMark humanMark rnd = simpleAIMove b aiMark humanMark rnd'.
Proof.
  intros Hwf Htier. rewrite !simpleAIMove_run by done. unfold aiChoice.
  destruct (firstWinsAt b aiMark) as [c|] eqn:Hai; [done|].
  destruct (firstWinsAt b humanMark) as [c|] eqn:Hhu; [done|].
  destruct (decide (EmptyCell b (1, 1))) as [Hc|Hc]; [done|].
  destruct Htier as [[q Hq]|[[q Hq]|?]]; [| |done].
  - by destruct (proj1 (firstWinsAt_None b Hwf aiMark) Hai q).
  - by destruct (proj1 (firstWinsAt_None b Hwf humanMark) Hhu q).
Qed.

Lemma simpleAIMove_random_last_tier_only_witness :
  wf_board firstMove ∧ EmptyCell firstMove (1, 1) ∧
  simpleAIMove firstMove O X (1 # 9) = simpleAIMove firstMove O X (8 # 9).
Proof.
  assert (wf_board firstMove) as Hwf by wf_concrete.
  split_and!; [done|reflexivity|].
  apply (simpleAIMove_random_last_tier_only firstMove O X (1 # 9) (8 # 9) Hwf).
  right; right. reflexivity.
Defined.

(** A sixteenth that [Math.floor] sends to the index [k] of a list of
    [n] elements.  Such a number and its product with [n] are binary64
    values, so here the rounding leaves the product as it is. *)
Lemma randomIndex_hit (k n : nat) :
  k < n → n ≤ 16 →
  ∃ j : Z, (0 ≤ j < 16)%Z ∧ randomIndex (j # 16) n = Z.of_nat k.
Proof.
  intros Hk Hn.
  set (a := (16 * Z.of_nat k + Z.of_nat n - 1)%Z).
  exists (a / Z.of_nat n)%Z.
  pose proof (Z.div_mod a (Z.of_nat n) ltac:(lia)) as Hdm.
  pose proof (Z.mod_pos_bound a (Z.of_nat n) ltac:(lia)) as Hmod.
  assert (0 ≤ a / Z.of_nat n < 16)%Z as Hj.
  { split; [apply Z.div_pos; lia|apply Z.div_lt_upper_bound; lia]. }
  split; [done|].
  assert (binary64 ((a / Z.of_nat n # 16) * inject_Z (Z.of_nat n))) as Hd.
  { exists (a / Z.of_nat n * Z.of_nat n)%Z, (-4)%Z.
    split; [|split; [lia|unfold Qeq; simpl; lia]].
    assert (2 ^ 53 = 9007199254740992)%Z as -> by reflexivity. nia. }
  unfold randomIndex. rewrite (Qfloor_comp _ _ (round64_exact _ Hd)).
  unfold Qfloor, Qmult, inject_Z. simpl Qnum. simpl Qden.
  symmetry. apply (Z.div_unique _ _ _ (a / Z.of_nat n * Z.of_nat n - 16 * Z.of_nat k)%Z);
    lia.
Qed.

Lemma bind_length_le {A B} (f : A → list B) (xs : list A) (k : nat) :
  (∀ x, length (f x) ≤ k) → length (xs ≫= f) ≤ k * length xs.
Proof.
  intros Hf. induction xs as [|x xs IH]; [simpl; lia|].
  rewrite bind_cons, length_app. specialize (Hf x). simpl. lia.
Qed.

Lemma emptiesOf_length (b : Board) : length (emptiesOf b) ≤ 9.
Proof.
  unfold emptiesOf.
  etransitivity; [apply (bind_length_le _ _ 3)|rewrite length_seq; lia].
  intros i. etransitivity; [apply (bind_length_le _ _ 1)|rewrite length_seq; lia].
  intros j. destruct (decide _); simpl; lia.
Qed.

(** X3. The last tier can reach every Empty cell: when no tier before it
    answers, each Empty cell is the one returned for some value of
    [Math.random()], and that value can be taken among the sixteenths
    0, 1/16, ..., 15/16. *)
Theorem simpleAIMove_fallback_reaches
    (b : Board) (aiMark humanMark : mark) (q : coord) :
  wf_board b →
  (∀ c, ¬ winsAt b aiMark c) →
  (∀ c, ¬ winsAt b humanMark c) →
  ¬ EmptyCell b (1, 1) →
  EmptyCell b q →
  ∃ j : Z, (0 ≤ j < 16)%Z ∧
           simpleAIMove b aiMark humanMark (j # 16) = (Return (Some q), b).
Proof.
  intros Hwf Hai Hhu Hc Hq.
  apply (elem_of_emptiesOf b Hwf), list_elem_of_lookup in Hq as [k Hk].
  apply lookup_lt_Some in Hk as Hlt.
  destruct (randomIndex_hit k (length (emptiesOf b)) Hlt) as (j & Hj & Hidx).
  { pose proof (emptiesOf_length b). lia. }
  exists j. split; [done|].
  rewrite simpleAIMove_run by done. unfold aiChoice.
  rewrite (proj2 (firstWinsAt_None b Hwf aiMark) Hai).
  rewrite (proj2 (firstWinsAt_None b Hwf humanMark) Hhu).
  rewrite decide_False by done. rewrite Hidx.
  by rewrite (proj2 (jsIndex_Some _ _ q)) by (split; [lia|by rewrite Nat2Z.id]).
Qed.

Lemma simpleAIMove_fallback_reaches_witness :
  wf_board centreTaken ∧
  (∀ c, ¬ winsAt centreTaken O c) ∧ (∀ c, ¬ winsAt centreTaken X c) ∧
  ¬ EmptyCell centreTaken (1, 1) ∧ EmptyCell centreTaken (2, 1) ∧
  ∃ j : Z, (0 ≤ j < 16)%Z ∧
           simpleAIMove centreTaken O X (j # 16) = (Return (Some (2, 1)), centreTaken).
Proof.
  assert (wf_board centreTaken) as Hwf by wf_concrete.
  assert (∀ c, ¬ winsAt centreTaken O c) as Hai by (by apply no_winsAt).
  assert (∀ c, ¬ winsAt centreTaken X c) as Hhu by (by apply no_winsAt).
  assert (¬ EmptyCell centreTaken (1, 1)) as Hc by done.
  split_and!; [done|done|done|done|reflexivity|].
  by apply (simpleAIMove_fallback_reaches centreTaken O X (2, 1) Hwf Hai Hhu Hc).
Defined.

Lemma lineHolds_three_marks (b : Board) (m : mark) (l : line) :
  wf_board b → l ∈ directions → lineHolds b l m → 3 ≤ markCount m b.
Proof.
  intros Hwf Hin Hl.
  destruct (wf_board_cells b Hwf)
    as (c00 & c01 & c02 & c10 & c11 & c12 & c20 & c21 & c22 & ->).
  unfold directions in Hin. destruct Hl as (H1 & H2 & H3).
  unfold holds, cellAt in H1, H2, H3.
  repeat (apply elem_of_cons in Hin as [->|Hin];
    [simpl in H1, H2, H3; injection H1 as ->; injection H2 as ->; injection H3 as ->;
     unfold markCount; simpl;
     rewrite !(bool_decide_eq_true_2 (Some m = Some m)) by done; lia|]).
  by apply elem_of_nil in Hin.
Qed.

(** X4. A winner has three marks on the board: when [checkWinner]
    reports the mark [m], at least three cells hold [m]. *)
Theorem checkWinner_three_marks (b : Board) (m : mark) (l : line) :
  wf_board b →
  checkWinner b = Return (Some (m, l)) →
  3 ≤ markCount m b.
Proof.
  intros Hwf Hw. apply checkWinner_Some_holds in Hw as [Hin Hl]; [|done].
  by eapply lineHolds_three_marks.
Qed.

Lemma checkWinner_three_marks_witness :
  wf_board wonBoard ∧ checkWinner wonBoard = Return (Some (X, row 0)) ∧
  3 ≤ markCount X wonBoard.
Proof.
  assert (wf_board wonBoard) as Hwf by wf_concrete.
  split_and!; [done|reflexivity|].
  by apply (checkWinner_three_marks wonBoard X ((0, 0), (0, 1), (0, 2)) Hwf).
Defined.

(** ** Clicks that are accepted *)

(** The state a move leaves, by the outcome of the new board: the three
    branches of [handleClick] after [setBoard(newBoard)]. *)
Lemma handleClick_accepted_unfold (s : state) (row col : Z) (md : gameMode) :
  wf_board (board s) → accepts s row col → mode s = Some md →
  let newBoard := place (board s) (Z.to_nat row, Z.to_nat col) (Some (nextMark s)) in
  let s1 := setBoard s newBoard in
  handleClick s row col =
  match evaluate newBoard with
  | TypeError => Threw s1
  | Return (Win m l) =>
      Completed
        (setDisableBoard
           (setStatus (setWinnerInfo s1 (Some (m, l)))
                      (String.append "Winner: " (markString m))) true) []
  | Return Draw =>
      Completed (setDisableBoard (setStatus (setWinnerInfo s1 None) "Draw!") true) []
  | Return InProgress =>
      match md with
      | ai =>
          Completed (setDisableBoard (setXIsNext s1 false) true)
                    [mkTimer (winnerInfo s) newBoard]
      | twoPlayer =>
          Completed
            (setStatus (setXIsNext s1 (negb (xIsNext s)))
               (String.append "Next: " (if negb (xIsNext s) then "X" else "O")))
            []
      end
  end.
Proof.
  intros Hwf (Hd & Hw & Hrow & Hcol & He & md' & Hmd & Hturn) Hmode.
  assert (md' = md) as -> by congruence.
  intros newBoard s1. unfold handleClick.
  rewrite Hd, (proj2 (readCellAt_Null (board s) Hwf row col)) by done.
  rewrite bool_decide_eq_false_2 by (by intros ?).
  rewrite Hw, bool_decide_eq_false_2 by (by intros [? ?]).
  rewrite Hmd.
  assert (bool_decide (md = ai) && negb (xIsNext s) = false) as ->.
  { destruct md; [by rewrite Hturn|done]. }
  by rewrite (writeCell_place _ _ _ _ None He).
Qed.

(** Every other click comes back from one of the early returns. *)
Lemma handleClick_not_accepted (s : state) (row col : Z) :
  wf_board (board s) → ¬ accepts s row col →
  handleClick s row col = Completed s [] ∨ handleClick s row col = Threw s.
Proof.
  intros Hwf Hno. unfold handleClick.
  destruct (disableBoard s) eqn:Hd; [by left|].
  destruct (readCellAt (board s) row col) as [v|] eqn:Hv; [|by right].
  destruct (decide (v = Null)) as [->|Hnull];
    [|rewrite bool_decide_eq_true_2 by done; by left].
  rewrite bool_decide_eq_false_2 by (by intros ?).
  destruct (winnerInfo s) as [w|] eqn:Hw;
    [rewrite bool_decide_eq_true_2 by done; by left|].
  rewrite bool_decide_eq_false_2 by (by intros [? ?]).
  destruct (mode s) as [md|] eqn:Hmd; [|by left].
  destruct (bool_decide (md = ai) && negb (xIsNext s)) eqn:Hturn; [by left|].
  destruct Hno. apply readCellAt_Null in Hv as (Hrow & Hcol & He); [|done].
  repeat (split; [done|]). exists md. split; [done|]. intros ->.
  by destruct (xIsNext s).
Qed.

(** X5. An accepted click changes exactly one cell: the new board is the
    old one with the mover's mark, X if [xIsNext] and O otherwise, on
    the target cell; every other cell and the mode are as before, and a
    timer is started only against the bot. *)
Theorem handleClick_accepted (s : state) (row col : Z) :
  wf_board (board s) →
  accepts s row col →
  ∃ s' started,
    handleClick s row col = Completed s' started ∧
    board s' = place (board s) (Z.to_nat row, Z.to_nat col) (Some (nextMark s)) ∧
    holds (board s') (Z.to_nat row, Z.to_nat col) (nextMark s) ∧
    (∀ q, q ≠ (Z.to_nat row, Z.to_nat col) → cellAt (board s') q = cellAt (board s) q) ∧
    mode s' = mode s ∧
    (mode s = Some twoPlayer → started = []).
Proof.
  intros Hwf Hacc. pose proof Hacc as (_ & _ & _ & _ & He & md & Hmd & _).
  rewrite (handleClick_accepted_unfold s row col md Hwf Hacc Hmd).
  set (p := (Z.to_nat row, Z.to_nat col)) in *.
  set (newBoard := place (board s) p (Some (nextMark s))).
  assert (holds newBoard p (nextMark s)) as Hnew.
  { by apply (cellAt_place_eq (board s) p (Some (nextMark s)) None). }
  assert (∀ q, q ≠ p → cellAt newBoard q = cellAt (board s) q) as Hrest.
  { intros q Hq. by apply cellAt_place_ne. }
  destruct (evaluate_total newBoard) as [o ->]; [by apply place_wf|].
  destruct o as [|m l|]; [destruct md|..]; eexists _, _;
    (split_and!; [reflexivity|done..| |]); try done.
  all: by rewrite Hmd.
Qed.

Lemma handleClick_accepted_witness :
  wf_board (board (app afterFirstClick)) ∧
  accepts (app afterFirstClick) 1 1 ∧
  ∃ s' started,
    handleClick (app afterFirstClick) 1 1 = Completed s' started ∧
    board s' = place (board (app afterFirstClick)) (Z.to_nat 1, Z.to_nat 1)
                     (Some (nextMark (app afterFirstClick))) ∧
    holds (board s') (Z.to_nat 1, Z.to_nat 1) (nextMark (app afterFirstClick)) ∧
    (∀ q, q ≠ (Z.to_nat 1, Z.to_nat 1) →
          cellAt (board s') q = cellAt (board (app afterFirstClick)) q) ∧
    mode s' = mode (app afterFirstClick) ∧
    (mode (app afterFirstClick) = Some twoPlayer → started = []).
Proof.
  assert (wf_board (board (app afterFirstClick))) as Hwf by wf_concrete.
  assert (accepts (app afterFirstClick) 1 1) as Hacc.
  { do 2 (split; [reflexivity|]). do 2 (split; [lia|]).
    split; [reflexivity|]. by exists twoPlayer. }
  split_and!; [done..|].
  by apply (handleClick_accepted (app afterFirstClick) 1 1 Hwf).
Defined.

(** X6. A click is ignored unless the board is enabled, no winner is
    recorded, the target is an Empty cell of the board, a mode has been
    chosen and, against the bot, X is to move: in every other case
    [handleClick] leaves the state as it is and starts no timer. *)
Theorem handleClick_ignored (s : state) (row col : Z) :
  wf_board (board s) →
  ¬ accepts s row col →
  (handleClick s row col = Completed s [] ∨ handleClick s row col = Threw s) ∧
  ∀ timers, settle (handleClick s row col) timers = mkPage s timers.
Proof.
  intros Hwf Hno.
  destruct (handleClick_not_accepted s row col Hwf Hno) as [Hc|Hc].
  - split; [by left|]. intros timers. rewrite Hc. simpl. by rewrite app_nil_r.
  - split; [by right|]. intros timers. by rewrite Hc.
Qed.

Lemma handleClick_ignored_witness :
  wf_board (board initialState) ∧ ¬ accepts initialState 1 1 ∧
  (handleClick initialState 1 1 = Completed initialState [] ∨
   handleClick initialState 1 1 = Threw initialState) ∧
  ∀ timers, settle (handleClick initialState 1 1) timers = mkPage initialState timers.
Proof.
  assert (wf_board (board initialState)) as Hwf by wf_concrete.
  assert (¬ accepts initialState 1 1) as Hno.
  { by intros (_ & _ & _ & _ & _ & md & Hmd & _). }
  split_and!; [done|done|..]; by apply (handleClick_ignored initialState 1 1 Hwf).
Defined.

(** ** Squares *)

Lemma winnerSquare_spec (m : mark) (l : line) (r c : nat) :
  winnerSquare (Some (m, l)) r c = true ↔ (r, c) ∈ lineCells l.
Proof.
  destruct l as [[[i1 j1] [i2 j2]] [i3 j3]]. unfold winnerSquare, lineCells. simpl.
  rewrite !orb_true_iff, !andb_true_iff, !Nat.eqb_eq, !elem_of_cons, elem_of_nil.
  split.
  - intros [[-> ->]|[[-> ->]|[[-> ->]|[=]]]]; auto.
  - intros [[= -> ->]|[[= -> ->]|[[= -> ->]|[]]]]; auto.
Qed.

(** What [renderSquare] shows of a cell of the board. *)
Lemma renderSquare_run (s : state) (r c : nat) :
  wf_board (board s) → r < 3 → c < 3 →
  ∃ cl sq,
    cellAt (board s) (r, c) = Some cl ∧
    renderSquare s r c = Return sq ∧
    children sq = cell_value cl ∧
    disabled sq = disableBoard s || bool_decide (cl ≠ None) ||
                  bool_decide (is_Some (winnerInfo s)) ∧
    (className sq = "ttt-square winner"%string ↔ winnerSquare (winnerInfo s) r c = true).
Proof.
  intros Hwf Hr Hc.
  destruct (cellAt_is_Some (board s) (r, c) Hwf) as [cl Hcl]; [by split|].
  unfold renderSquare. rewrite (readCell_cellAt _ _ _ _ Hcl). simpl.
  eexists cl, _. split_and!; [done|reflexivity|reflexivity| |]; simpl.
  - f_equal. f_equal. destruct cl; by apply bool_decide_ext.
  - destruct (winnerSquare (winnerInfo s) r c); simpl; split; done.
Qed.

(** ** After an accepted click *)

(** X7. Turns alternate in a two-player game: after an accepted click
    that leaves the game in progress, the other mark is to move, the
    status line names that mark, and a click on any Empty cell is
    accepted. *)
Theorem handleClick_two_player_turns (s : state) (row col : Z) :
  wf_board (board s) →
  accepts s row col →
  mode s = Some twoPlayer →
  evaluate (place (board s) (Z.to_nat row, Z.to_nat col) (Some (nextMark s)))
    = Return InProgress →
  ∃ s',
    handleClick s row col = Completed s' [] ∧
    nextMark s' ≠ nextMark s ∧
    status s' = String.append "Next: " (markString (nextMark s')) ∧
    ∀ row' col',
      (0 ≤ row' < 3)%Z → (0 ≤ col' < 3)%Z →
      EmptyCell (board s') (Z.to_nat row', Z.to_nat col') →
      accepts s' row' col'.
Proof.
  intros Hwf Hacc Hmd Hgo. pose proof Hacc as (Hd & Hw & _).
  rewrite (handleClick_accepted_unfold s row col twoPlayer Hwf Hacc Hmd), Hgo.
  eexists. split_and!; [reflexivity|..].
  - unfold nextMark. simpl. by destruct (xIsNext s).
  - unfold nextMark. simpl. by destruct (xIsNext s).
  - intros row' col' Hrow Hcol He. repeat (split; [done|]).
    exists twoPlayer. by split.
Qed.

Lemma handleClick_two_player_turns_witness :
  wf_board (board (app afterFirstClick)) ∧
  accepts (app afterFirstClick) 1 1 ∧
  mode (app afterFirstClick) = Some twoPlayer ∧
  ∃ s',
    handleClick (app afterFirstClick) 1 1 = Completed s' [] ∧
    nextMark s' ≠ nextMark (app afterFirstClick) ∧
    status s' = String.append "Next: " (markString (nextMark s')) ∧
    ∀ row' col',
      (0 ≤ row' < 3)%Z → (0 ≤ col' < 3)%Z →
      EmptyCell (board s') (Z.to_nat row', Z.to_nat col') →
      accepts s' row' col'.
Proof.
  assert (wf_board (board (app afterFirstClick))) as Hwf by wf_concrete.
  assert (accepts (app afterFirstClick) 1 1) as Hacc.
  { do 2 (split; [reflexivity|]). do 2 (split; [lia|]).
    split; [reflexivity|]. by exists twoPlayer. }
  split_and!; [done|done|reflexivity|].
  by apply (handleClick_two_player_turns (app afterFirstClick) 1 1 Hwf Hacc).
Defined.

(** X8. A winning click: on a board without a held line, when the click
    completes a line, the winner is the player who clicked and the line
    runs through the clicked cell; the state records that winner and
    line, the board is disabled, the status line names the winner, and
    the squares rendered with the class [winner] are exactly the three
    cells of the line, each showing the winner's mark. *)
Theorem handleClick_winning_move (s : state) (row col : Z) (m : mark) (l : line) :
  wf_board (board s) →
  accepts s row col →
  checkWinner (board s) = Return None →
  evaluate (place (board s) (Z.to_nat row, Z.to_nat col) (Some (nextMark s)))
    = Return (Win m l) →
  m = nextMark s ∧
  (Z.to_nat row, Z.to_nat col) ∈ lineCells l ∧
  ∃ s',
    handleClick s row col = Completed s' [] ∧
    winnerInfo s' = Some (m, l) ∧
    disableBoard s' = true ∧
    status s' = String.append "Winner: " (markString m) ∧
    ∀ r c, r < 3 → c < 3 →
      ∃ sq, renderSquare s' r c = Return sq ∧
            disabled sq = true ∧
            (className sq = "ttt-square winner"%string ↔ (r, c) ∈ lineCells l) ∧
            ((r, c) ∈ lineCells l → children sq = Str m).
Proof.
  intros Hwf Hacc Hnone Hwin.
  pose proof Hacc as (_ & _ & _ & _ & He & md & Hmd & _).
  set (p := (Z.to_nat row, Z.to_nat col)) in *.
  assert (wf_board (place (board s) p (Some (nextMark s)))) as Hwf'
    by (by apply place_wf).
  pose proof (proj1 (evaluate_Win _ _ _) Hwin) as Hcw.
  apply checkWinner_Some_holds in Hcw as [Hin Hl]; [|done].
  apply checkWinner_None_noLine in Hnone; [|done].
  apply (lineHolds_place_inv (board s) p (nextMark s) He) in Hl as Hl'.
  destruct Hl' as [Hold|[-> Hthrough]]; [by destruct (Hnone l m)|].
  split_and!; [done..|].
  rewrite (handleClick_accepted_unfold s row col md Hwf Hacc Hmd).
  fold p. rewrite Hwin.
  eexists. split_and!; [reflexivity..|].
  intros r c Hr Hc.
  match goal with |- context [renderSquare ?s' r c] =>
    destruct (renderSquare_run s' r c Hwf' Hr Hc)
      as (cl & sq & Hcl & Hsq & Hch & Hdis & Hcls) end.
  exists sq. simpl in Hcl, Hdis. split_and!; [done|done| |].
  - rewrite Hcls. exact (winnerSquare_spec (nextMark s) l r c).
  - intros Hrc. rewrite Hch.
    assert (holds (place (board s) p (Some (nextMark s))) (r, c) (nextMark s)) as Hh.
    { destruct Hl as (H1 & H2 & H3). unfold lineCells in Hrc.
      apply elem_of_cons in Hrc as [->|Hrc]; [done|].
      apply elem_of_cons in Hrc as [->|Hrc]; [done|].
      apply elem_of_cons in Hrc as [->|Hrc]; [done|].
      by apply elem_of_nil in Hrc. }
    unfold holds in Hh. rewrite Hh in Hcl. by injection Hcl as <-.
Qed.

Lemma handleClick_winning_move_witness :
  wf_board (board aboutToWin) ∧ accepts aboutToWin 0 2 ∧
  checkWinner (board aboutToWin) = Return None ∧
  X = nextMark aboutToWin ∧
  (Z.to_nat 0, Z.to_nat 2) ∈ lineCells (row 0) ∧
  ∃ s',
    handleClick aboutToWin 0 2 = Completed s' [] ∧
    winnerInfo s' = Some (X, row 0) ∧
    disableBoard s' = true ∧
    status s' = String.append "Winner: " (markString X) ∧
    ∀ r c, r < 3 → c < 3 →
      ∃ sq, renderSquare s' r c = Return sq ∧
            disabled sq = true ∧
            (className sq = "ttt-square winner"%string ↔ (r, c) ∈ lineCells (row 0)) ∧
            ((r, c) ∈ lineCells (row 0) → children sq = Str X).
Proof.
  assert (wf_board (board aboutToWin)) as Hwf by wf_concrete.
  assert (accepts aboutToWin 0 2) as Hacc.
  { do 2 (split; [reflexivity|]). do 2 (split; [lia|]).
    split; [reflexivity|]. by exists twoPlayer. }
  split_and!; [done|done|reflexivity|..];
    by apply (handleClick_winning_move aboutToWin 0 2 X (row 0) Hwf Hacc).
Defined.

(** ** What every reachable page satisfies *)

Lemma getInitialBoard_markCount m : markCount m getInitialBoard = 0.
Proof. reflexivity. Qed.

Lemma fresh_board_fair (s : state) md t w :
  fair (setStatus
          (setDisableBoard
             (setWinnerInfo (setMode (setXIsNext (setBoard s getInitialBoard) true) md) w)
             false) t).
Proof.
  split_and!; [apply fresh_board_consistent|by left|done..].
Qed.

Lemma accepts_or_not (s : state) (row col : Z) :
  accepts s row col ∨ ¬ accepts s row col.
Proof.
  unfold accepts.
  destruct (disableBoard s); [right; by intros (? & _)|].
  destruct (winnerInfo s); [right; by intros (_ & ? & _)|].
  destruct (decide (0 ≤ row < 3)%Z); [|right; by intros (_ & _ & ? & _)].
  destruct (decide (0 ≤ col < 3)%Z); [|right; by intros (_ & _ & _ & ? & _)].
  destruct (decide (EmptyCell (board s) (Z.to_nat row, Z.to_nat col)));
    [|right; by intros (_ & _ & _ & _ & ? & _)].
  destruct (mode s) as [md|]; [|right; by intros (_ & _ & _ & _ & _ & ? & ? & _)].
  destruct md, (xIsNext s) eqn:Hx.
  - left. repeat (split; [done|]). by exists ai.
  - right. intros (_ & _ & _ & _ & _ & md & [= <-] & Hturn). by specialize (Hturn eq_refl).
  - left. repeat (split; [done|]). by exists twoPlayer.
  - left. repeat (split; [done|]). by exists twoPlayer.
Qed.

Lemma handleClick_fair (s : state) (row col : Z) :
  fair s → fairOutcome (handleClick s row col).
Proof.
  intros Hs. pose proof Hs as ([Hwf _] & Hbal & Hturn & Hbot).
  destruct (accepts_or_not s row col) as [Hacc|Hno]; first last.
  { by destruct (handleClick_not_accepted s row col Hwf Hno) as [-> | ->]. }
  pose proof Hacc as (Hd & Hw & _ & _ & He & md & Hmd & Hx).
  rewrite (handleClick_accepted_unfold s row col md Hwf Hacc Hmd).
  set (p := (Z.to_nat row, Z.to_nat col)) in *.
  set (newBoard := place (board s) p (Some (nextMark s))).
  assert (wf_board newBoard) as Hwf' by (by apply place_wf).
  specialize (Hturn Hd).
  assert (markCount X newBoard = (if xIsNext s then 1 else 1) + markCount O (board s) ∧
          markCount O newBoard = (if xIsNext s then 0 else 1) + markCount O (board s))
    as [HX HO].
  { unfold newBoard, nextMark. rewrite !markCount_place by done.
    destruct (xIsNext s); simpl in *; lia. }
  assert (balanced newBoard) as Hbal'.
  { unfold balanced. destruct (xIsNext s); lia. }
  destruct (evaluate_total newBoard Hwf') as [o Ho]. rewrite Ho.
  destruct (after_move_consistent s newBoard o Hwf' Ho) as (Hwin & Hdraw & Hai & Hgo).
  destruct o as [|m l|].
  - destruct md.
    + split; [by split_and!|]. apply Forall_singleton.
      split_and!; [done|done| |done]. simpl. rewrite HX, HO, (Hx eq_refl). lia.
    + split; [|done].
      split_and!; [eapply proj2, (Hgo eq_refl _ _ true)|done| |simpl; by rewrite Hmd].
      intros _. simpl. rewrite HX, HO. destruct (xIsNext s); simpl; lia.
  - split; [|done]. by split_and!.
  - split; [|done]. by split_and!.
Qed.

Lemma aiMove_fair (s : state) (t : timer) (rnd : Q) :
  fair s → armed t → fairOutcome (aiMove s t rnd).
Proof.
  intros Hs (Hwf & _ & Hlead & Hseen). unfold aiMove.
  rewrite Hseen, bool_decide_eq_false_2 by (by intros [? ?]).
  rewrite simpleAIMove_run by done.
  destruct (aiChoice _ _ _ _) as [[aiRow aiCol]|] eqn:Hp; [|done].
  apply aiChoice_EmptyCell in Hp; [|done].
  rewrite (writeCell_place _ _ _ _ None Hp).
  set (newBoard := place (currentBoard t) (aiRow, aiCol) (Some O)).
  assert (wf_board newBoard) as Hwf' by (by apply place_wf).
  assert (markCount X newBoard = markCount O newBoard) as Heq.
  { unfold newBoard. rewrite !markCount_place by done. simpl. lia. }
  destruct (evaluate_total newBoard Hwf') as [o Ho]. rewrite Ho.
  destruct (after_move_consistent s newBoard o Hwf' Ho) as (Hwin & Hdraw & _ & Hgo).
  destruct o as [|m l|]; (split; [|done]).
  - split_and!; [eapply proj1, (Hgo eq_refl)|by left|done..].
  - split_and!; [done|by left|done..].
  - split_and!; [done|by left|done..].
Qed.

Lemma settle_fair (o : outcome) (timers : list timer) :
  fairOutcome o → Forall armed timers → fairPage (settle o timers).
Proof.
  destruct o as [s started|s]; simpl.
  - intros [Hs Hst] Hts. split; [done|]. by apply Forall_app.
  - intros Hs Hts. by split.
Qed.

Lemma step_fair (p : page) (e : event) : fairPage p → fairPage (step p e).
Proof.
  intros [Hs Hts]. destruct e as [row col|modeVal| |k rnd]; simpl.
  - apply settle_fair; [by apply handleClick_fair|done].
  - split; [apply fresh_board_fair|done].
  - split; [|done]. unfold handleRestart.
    apply (fresh_board_fair (app p) (mode (app p)) _ None).
  - destruct (pending p !! k) as [t|] eqn:Hk; [|by split].
    apply settle_fair.
    + apply aiMove_fair; [done|].
      rewrite Forall_forall in Hts. eapply Hts, list_elem_of_lookup_2, Hk.
    + by apply Forall_delete.
Qed.

Lemma reachable_fair (p : page) : reachable p → fairPage p.
Proof.
  induction 1 as [|p e Hp IH]; [|by apply step_fair].
  split; [|constructor].
  split_and!; [|by left|done..]. split; [wf_concrete|]. simpl. by intros [].
Qed.

Lemma afterSecondClick_reachable : reachable afterSecondClick.
Proof. unfold afterSecondClick. apply reach_step, afterFirstClick_reachable. Qed.

Lemma awaitingBot_reachable : reachable awaitingBot.
Proof. unfold awaitingBot. do 2 apply reach_step. apply reach_init. Qed.

(** X9. Marks stay balanced: on every page the handlers can reach, X
    has as many marks on the board as O or one more.  While the board is
    enabled the game on it is in progress, X has as many marks as O
    exactly when X is to move and one more when O is, and against the
    bot it is X who is to move. *)
Theorem reachable_marks_balanced (p : page) :
  reachable p →
  balanced (board (app p)) ∧
  (disableBoard (app p) = false →
   evaluate (board (app p)) = Return InProgress ∧
   markCount X (board (app p)) =
     (if xIsNext (app p) then 0 else 1) + markCount O (board (app p)) ∧
   (mode (app p) = Some ai → xIsNext (app p) = true)).
Proof.
  intros Hp. apply reachable_fair in Hp as (([Hwf Hover] & Hbal & Hturn & Hbot) & _).
  split; [done|]. intros Hd. split_and!; [|by apply Hturn|by apply Hbot].
  destruct (evaluate_total (board (app p)) Hwf) as [o Ho]. rewrite Ho.
  destruct o as [|m l|]; [done|..]; rewrite Hover in Hd; by rewrite ?Ho.
Qed.

Lemma reachable_marks_balanced_witness :
  reachable afterSecondClick ∧
  balanced (board (app afterSecondClick)) ∧
  (disableBoard (app afterSecondClick) = false →
   evaluate (board (app afterSecondClick)) = Return InProgress ∧
   markCount X (board (app afterSecondClick)) =
     (if xIsNext (app afterSecondClick) then 0 else 1)
     + markCount O (board (app afterSecondClick)) ∧
   (mode (app afterSecondClick) = Some ai → xIsNext (app afterSecondClick) = true)).
Proof.
  split; [apply afterSecondClick_reachable|].
  apply (reachable_marks_balanced afterSecondClick afterSecondClick_reachable).
Defined.

Lemma inProgress_EmptyCell (b : Board) :
  wf_board b → evaluate b = Return InProgress → ∃ q, EmptyCell b q.
Proof.
  intros Hwf [Hnone Hd]%evaluate_InProgress.
  apply isDraw_false in Hd as [?|(m & l & Hml)]; [done|congruence|done].
Qed.

(** X10. The bot always answers: on a reachable page every pending timer
    holds a board in progress on which X is one mark ahead, and when it
    fires, for any binary64 value of [0, 1) that [Math.random()] yields,
    [aiMove] throws nothing and puts one O on a cell of that board that
    was Empty; the timer is gone and none is started. *)
Theorem pending_timer_moves (p : page) (k : nat) (t : timer) (rnd : Q) :
  reachable p →
  pending p !! k = Some t →
  binary64 rnd → (0 <= rnd)%Q → (rnd < 1)%Q →
  evaluate (currentBoard t) = Return InProgress ∧
  markCount X (currentBoard t) = S (markCount O (currentBoard t)) ∧
  ∃ q s',
    EmptyCell (currentBoard t) q ∧
    aiMove (app p) t rnd = Completed s' [] ∧
    board s' = place (currentBoard t) q (Some O) ∧
    step p (Fire k rnd) = mkPage s' (delete k (pending p)).
Proof.
  intros Hp Hk Hd H0 H1. apply reachable_fair in Hp as [_ Hts].
  rewrite Forall_forall in Hts.
  destruct (Hts t) as (Hwf & Hgo & Hlead & Hseen); [by eapply list_elem_of_lookup_2|].
  split_and!; [done..|].
  destruct (aiChoice_Some (currentBoard t) O X rnd Hwf
              (inProgress_EmptyCell _ Hwf Hgo) Hd H0 H1) as ([i j] & Hq & He).
  assert (∃ s', aiMove (app p) t rnd = Completed s' [] ∧
                board s' = place (currentBoard t) (i, j) (Some O)) as (s' & Hs' & Hb).
  { unfold aiMove. rewrite Hseen, bool_decide_eq_false_2 by (by intros [? ?]).
    rewrite simpleAIMove_run, Hq by done.
    rewrite (writeCell_place _ _ _ _ None He).
    destruct (evaluate_total (place (currentBoard t) (i, j) (Some O))) as [o ->];
      [by apply place_wf|].
    destruct o; by eexists. }
  exists (i, j), s'. split_and!; [done..|].
  simpl. rewrite Hk, Hs'. simpl. by rewrite app_nil_r.
Qed.

Lemma pending_timer_moves_witness :
  reachable awaitingBot ∧
  pending awaitingBot !! 0 = Some (mkTimer None firstMove) ∧
  binary64 (1 # 2) ∧
  evaluate firstMove = Return InProgress ∧
  markCount X firstMove = S (markCount O firstMove) ∧
  ∃ q s',
    EmptyCell firstMove q ∧
    aiMove (app awaitingBot) (mkTimer None firstMove) (1 # 2) = Completed s' [] ∧
    board s' = place firstMove q (Some O) ∧
    step awaitingBot (Fire 0 (1 # 2)) = mkPage s' (delete 0 (pending awaitingBot)).
Proof.
  assert (pending awaitingBot !! 0 = Some (mkTimer None firstMove)) as Hk
    by (by vm_compute).
  split_and!; [apply awaitingBot_reachable|done|apply binary64_half|..];
    by apply (pending_timer_moves awaitingBot 0 (mkTimer None firstMove) (1 # 2)
                awaitingBot_reachable Hk binary64_half).
Defined.

(** X11. The squares tell the truth.  On a reachable page, a square that
    [renderSquare] leaves enabled accepts a click as soon as a mode has
    been chosen; on a square it disables, [handleClick] and
    [handleSquareKey], whatever the key, leave the state as it is. *)
Theorem enabled_squares_accept (p : page) (r c : nat) :
  reachable p → r < 3 → c < 3 →
  ∃ sq,
    renderSquare (app p) r c = Return sq ∧
    (disabled sq = false → is_Some (mode (app p)) →
     accepts (app p) (Z.of_nat r) (Z.of_nat c)) ∧
    (disabled sq = true →
     handleClick (app p) (Z.of_nat r) (Z.of_nat c) = Completed (app p) [] ∧
     ∀ key, handleSquareKey (app p) (Z.of_nat r) (Z.of_nat c) key = Completed (app p) []).
Proof.
  intros Hp Hr Hc. apply reachable_fair in Hp as (([Hwf _] & _ & _ & Hbot) & _).
  destruct (renderSquare_run (app p) r c Hwf Hr Hc)
    as (cl & sq & Hcl & Hsq & _ & Hdis & _).
  exists sq. split; [done|]. rewrite Hdis. split.
  - intros [[Hd Hocc]%orb_false_iff Hw]%orb_false_iff [md Hmd].
    apply bool_decide_eq_false in Hocc, Hw.
    split; [done|]. split; [by destruct (winnerInfo (app p)); [destruct Hw|]|].
    do 2 (split; [lia|]). rewrite !Nat2Z.id. split.
    + unfold EmptyCell. rewrite Hcl. destruct cl; [by destruct Hocc|done].
    + exists md. split; [done|]. intros ->. by apply Hbot.
  - intros Hrej.
    assert (handleClick (app p) (Z.of_nat r) (Z.of_nat c) = Completed (app p) [])
      as Hclick.
    { destruct (handleClick_guard (app p) (Z.of_nat r) (Z.of_nat c))
        as [[Hdone _]|(_ & _ & Hthrow)]; [|done|].
      - apply orb_true_iff in Hrej as [[Hd|Hocc]%orb_true_iff|Hw].
        + by left.
        + right; right. intros (_ & _ & He)%readCellAt_Null; [|done].
          rewrite !Nat2Z.id in He. unfold EmptyCell in He.
          apply bool_decide_eq_true in Hocc. congruence.
        + right; left. by apply bool_decide_eq_true in Hw.
      - apply readCellAt_TypeError in Hthrow; [lia|done]. }
    split; [done|]. intros key. unfold handleSquareKey.
    by destruct (String.eqb key " " || String.eqb key "Enter").
Qed.

Lemma enabled_squares_accept_witness :
  reachable afterSecondClick ∧
  ∃ sq,
    renderSquare (app afterSecondClick) 2 2 = Return sq ∧
    (disabled sq = false → is_Some (mode (app afterSecondClick)) →
     accepts (app afterSecondClick) (Z.of_nat 2) (Z.of_nat 2)) ∧
    (disabled sq = true →
     handleClick (app afterSecondClick) (Z.of_nat 2) (Z.of_nat 2)
       = Completed (app afterSecondClick) [] ∧
     ∀ key, handleSquareKey (app afterSecondClick) (Z.of_nat 2) (Z.of_nat 2) key
            = Completed (app afterSecondClick) []).
Proof.
  split; [apply afterSecondClick_reachable|].
  apply (enabled_squares_accept afterSecondClick 2 2 afterSecondClick_reachable); lia.
Defined.

(** X12. The bot takes a win: when O has a winning cell on the board
    [aiMove] is called with, it puts O on the first such cell, records O
    and the completed line as the winner, disables the board and sets
    the status line to "Winner: O", whatever the random number is. *)
Theorem aiMove_takes_win (s : state) (t : timer) (rnd : Q) :
  wf_board (currentBoard t) →
  seenWinnerInfo t = None →
  (∃ q, winsAt (currentBoard t) O q) →
  ∃ p l s',
    winsAt (currentBoard t) O p ∧
    (∀ q, rowMajorLt q p → ¬ winsAt (currentBoard t) O q) ∧
    aiMove s t rnd = Completed s' [] ∧
    board s' = place (currentBoard t) p (Some O) ∧
    winnerInfo s' = Some (O, l) ∧
    lineHolds (board s') l O ∧
    disableBoard s' = true ∧
    status s' = "Winner: O"%string.
Proof.
  intros Hwf Hseen [q Hq].
  destruct (firstWinsAt (currentBoard t) O) as [[i j]|] eqn:Hfirst;
    [|by destruct (proj1 (firstWinsAt_None _ Hwf O) Hfirst q)].
  apply firstWinsAt_Some in Hfirst as Hp; [|done].
  destruct Hp as [[He [l Hl]] Hbefore].
  exists (i, j), l. unfold aiMove.
  rewrite Hseen, bool_decide_eq_false_2 by (by intros [? ?]).
  rewrite simpleAIMove_run by done. unfold aiChoice. rewrite Hfirst.
  rewrite (writeCell_place _ _ _ _ None He).
  rewrite (proj2 (evaluate_Win _ O l) Hl).
  eexists. split_and!; [by split; [|exists l]|done|reflexivity..| |reflexivity|reflexivity].
  simpl. by apply checkWinner_Some_holds in Hl as [_ ?]; [|apply place_wf].
Qed.

Lemma aiMove_takes_win_witness :
  wf_board botWins ∧ winsAt botWins O (2, 1) ∧
  ∃ p l s',
    winsAt (currentBoard (mkTimer None botWins)) O p ∧
    (∀ q, rowMajorLt q p → ¬ winsAt (currentBoard (mkTimer None botWins)) O q) ∧
    aiMove (app awaitingBot) (mkTimer None botWins) (1 # 2) = Completed s' [] ∧
    board s' = place (currentBoard (mkTimer None botWins)) p (Some O) ∧
    winnerInfo s' = Some (O, l) ∧
    lineHolds (board s') l O ∧
    disableBoard s' = true ∧
    status s' = "Winner: O"%string.
Proof.
  assert (wf_board botWins) as Hwf by wf_concrete.
  assert (winsAt botWins O (2, 1)) as Hw.
  { split; [reflexivity|]. by exists (column 1). }
  split_and!; [done..|].
  apply (aiMove_takes_win (app awaitingBot) (mkTimer None botWins) (1 # 2) Hwf eq_refl).
  by exists (2, 1).
Defined.

Lemma getInitialBoard_EmptyCell (row col : Z) :
  (0 ≤ row < 3)%Z → (0 ≤ col < 3)%Z →
  EmptyCell getInitialBoard (Z.to_nat row, Z.to_nat col).
Proof.
  intros Hrow Hcol.
  assert (Z.to_nat row < 3) as Hr by lia. assert (Z.to_nat col < 3) as Hc by lia.
  destruct (Z.to_nat row) as [|[|[|?]]], (Z.to_nat col) as [|[|[|?]]];
    try reflexivity; lia.
Qed.

(** X13. A fresh game is always playable: after [handleStart], from any
    state whatever, and after [handleRestart] once a mode has been
    chosen, the click on each of the nine cells is accepted and places
    an X; [handleStart] forgets the state it is called in and
    [handleRestart] keeps nothing of it but the mode. *)
Theorem fresh_game_playable (s : state) (row col : Z) :
  (0 ≤ row < 3)%Z → (0 ≤ col < 3)%Z →
  (∀ modeVal,
     accepts (handleStart s modeVal) row col ∧
     nextMark (handleStart s modeVal) = X ∧
     ∀ s0, handleStart s0 modeVal = handleStart s modeVal) ∧
  (is_Some (mode s) →
   accepts (handleRestart s) row col ∧ nextMark (handleRestart s) = X) ∧
  mode (handleRestart s) = mode s ∧
  (∀ s0, mode s0 = mode s → handleRestart s0 = handleRestart s).
Proof.
  intros Hrow Hcol.
  pose proof (getInitialBoard_EmptyCell row col Hrow Hcol) as He.
  split_and!.
  - intros modeVal. split_and!; [|done..].
    do 2 (split; [done|]). do 2 (split; [done|]). split; [done|].
    by exists modeVal.
  - intros [md Hmd]. split; [|done].
    do 2 (split; [done|]). do 2 (split; [done|]). split; [done|].
    exists md. by split.
  - done.
  - intros s0 Hs0.
    unfold handleRestart, setStatus, setDisableBoard, setWinnerInfo, setXIsNext, setBoard.
    simpl. by rewrite Hs0.
Qed.

Lemma fresh_game_playable_witness :
  (0 ≤ 1 < 3)%Z ∧ (0 ≤ 2 < 3)%Z ∧ is_Some (mode wonState) ∧
  accepts (handleRestart wonState) 1 2 ∧ nextMark (handleRestart wonState) = X.
Proof.
  assert (0 ≤ 1 < 3)%Z as H1 by lia. assert (0 ≤ 2 < 3)%Z as H2 by lia.
  assert (is_Some (mode wonState)) as Hm by (by eexists).
  split_and!; [lia..|done| |];
    by apply (fresh_game_playable wonState 1 2 H1 H2).
Defined.

(** ** Finished games *)

Lemma full_markCount (b : Board) :
  wf_board b → full b → markCount X b + markCount O b = 9.
Proof.
  intros Hwf Hfull.
  destruct (wf_board_cells b Hwf)
    as (c00 & c01 & c02 & c10 & c11 & c12 & c20 & c21 & c22 & ->).
  assert (∀ i j, i < 3 → j < 3 →
            ∃ m, [[c00; c01; c02]; [c10; c11; c12]; [c20; c21; c22]] !! i
                 ≫= (λ r : list cell, r !! j) = Some (Some m)) as Hcell.
  { intros i j Hi Hj. by apply (Hfull (i, j)). }
  destruct (Hcell 0 0) as [m00 [= ->]]; [lia..|].
  destruct (Hcell 0 1) as [m01 [= ->]]; [lia..|].
  destruct (Hcell 0 2) as [m02 [= ->]]; [lia..|].
  destruct (Hcell 1 0) as [m10 [= ->]]; [lia..|].
  destruct (Hcell 1 1) as [m11 [= ->]]; [lia..|].
  destruct (Hcell 1 2) as [m12 [= ->]]; [lia..|].
  destruct (Hcell 2 0) as [m20 [= ->]]; [lia..|].
  destruct (Hcell 2 1) as [m21 [= ->]]; [lia..|].
  destruct (Hcell 2 2) as [m22 [= ->]]; [lia..|].
  clear. unfold markCount. simpl.
  assert (∀ m, (if bool_decide (Some m = Some X) then 1 else 0)
               + (if bool_decide (Some m = Some O) then 1 else 0) = 1) as Hone
    by (by intros []).
  pose proof (Hone m00). pose proof (Hone m01). pose proof (Hone m02).
  pose proof (Hone m10). pose proof (Hone m11). pose proof (Hone m12).
  pose proof (Hone m20). pose proof (Hone m21). pose proof (Hone m22).
  lia.
Qed.

(** X14. A draw has five X and four O: on a reachable page whose board
    [isDraw] calls a draw, X holds five cells and O four. *)
Theorem reachable_draw_count (p : page) :
  reachable p →
  isDraw (board (app p)) = Return true →
  markCount X (board (app p)) = 5 ∧ markCount O (board (app p)) = 4.
Proof.
  intros Hp Hdraw. apply reachable_fair in Hp as (([Hwf _] & Hbal & _) & _).
  apply isDraw_true in Hdraw as [Hfull _]; [|done].
  pose proof (full_markCount _ Hwf Hfull). unfold balanced in Hbal. lia.
Qed.

Lemma drawnPage_reachable : reachable drawnPage.
Proof. unfold drawnPage. cbn [foldl]. repeat apply reach_step. apply reach_init. Qed.

Lemma reachable_draw_count_witness :
  reachable drawnPage ∧ isDraw (board (app drawnPage)) = Return true ∧
  markCount X (board (app drawnPage)) = 5 ∧ markCount O (board (app drawnPage)) = 4.
Proof.
  assert (isDraw (board (app drawnPage)) = Return true) as Hd by (by vm_compute).
  split_and!; [apply drawnPage_reachable|done|..];
    by apply (reachable_draw_count drawnPage drawnPage_reachable).
Defined.

(** X15. No game is won before the fifth mark: on a reachable page
    whose board has a winner, the winner holds at least three cells and
    the board carries at least five marks. *)
Theorem reachable_win_count (p : page) (m : mark) (l : line) :
  reachable p →
  checkWinner (board (app p)) = Return (Some (m, l)) →
  3 ≤ markCount m (board (app p)) ∧
  5 ≤ markCount X (board (app p)) + markCount O (board (app p)).
Proof.
  intros Hp Hw. apply reachable_fair in Hp as (([Hwf _] & Hbal & _) & _).
  apply checkWinner_Some_holds in Hw as [Hin Hl]; [|done].
  pose proof (lineHolds_three_marks _ _ _ Hwf Hin Hl) as H3.
  split; [done|]. unfold balanced in Hbal. destruct m; lia.
Qed.

Lemma reachable_win_count_witness :
  reachable afterWin ∧
  checkWinner (board (app afterWin)) = Return (Some (X, row 0)) ∧
  3 ≤ markCount X (board (app afterWin)) ∧
  5 ≤ markCount X (board (app afterWin)) + markCount O (board (app afterWin)).
Proof.
  assert (checkWinner (board (app afterWin)) = Return (Some (X, row 0))) as Hw
    by (by vm_compute).
  split_and!; [apply afterWin_reachable|done|..];
    by apply (reachable_win_count afterWin X (row 0) afterWin_reachable).
Defined.

(** ** A round against the bot *)

(** X16. One round against the bot.  An accepted click that leaves the
    game in progress places an X, disables the board and starts exactly
    one timer, holding the new board.  When that timer fires on the
    state the click left, for any binary64 value of [0, 1) that
    [Math.random()] yields, one O is put on a cell that was Empty, and
    unless that ends the game the board is enabled again with X to
    move. *)
Theorem bot_round (s : state) (row col : Z) (rnd : Q) :
  wf_board (board s) →
  accepts s row col →
  mode s = Some ai →
  evaluate (place (board s) (Z.to_nat row, Z.to_nat col) (Some X)) = Return InProgress →
  binary64 rnd → (0 <= rnd)%Q → (rnd < 1)%Q →
  ∃ s1 t q s2,
    handleClick s row col = Completed s1 [t] ∧
    board s1 = place (board s) (Z.to_nat row, Z.to_nat col) (Some X) ∧
    currentBoard t = board s1 ∧
    disableBoard s1 = true ∧
    EmptyCell (board s1) q ∧
    aiMove s1 t rnd = Completed s2 [] ∧
    board s2 = place (board s1) q (Some O) ∧
    (evaluate (board s2) = Return InProgress →
     disableBoard s2 = false ∧ xIsNext s2 = true ∧ winnerInfo s2 = None ∧
     mode s2 = Some ai ∧ status s2 = "Next: X"%string).
Proof.
  intros Hwf Hacc Hmd Hgo Hd H0 H1.
  pose proof Hacc as (_ & Hw & _ & _ & He & md & Hmd' & Hx).
  assert (md = ai) as -> by congruence. specialize (Hx eq_refl).
  assert (nextMark s = X) as Hmark by (unfold nextMark; by rewrite Hx).
  set (p := (Z.to_nat row, Z.to_nat col)) in *.
  set (b1 := place (board s) p (Some X)) in *.
  assert (wf_board b1) as Hwf1 by (by apply place_wf).
  destruct (aiChoice_Some b1 O X rnd Hwf1 (inProgress_EmptyCell _ Hwf1 Hgo) Hd H0 H1)
    as ([i j] & Hq & Hq').
  rewrite (handleClick_accepted_unfold s row col ai Hwf Hacc Hmd), Hmark.
  fold p b1. rewrite Hgo, Hw.
  set (s1 := setDisableBoard (setXIsNext (setBoard s b1) false) true).
  assert (∃ s2, aiMove s1 (mkTimer None b1) rnd = Completed s2 [] ∧
                board s2 = place b1 (i, j) (Some O) ∧
                (evaluate (board s2) = Return InProgress →
                 disableBoard s2 = false ∧ xIsNext s2 = true ∧ winnerInfo s2 = None ∧
                 mode s2 = Some ai ∧ status s2 = "Next: X"%string))
    as (s2 & Hmove & Hboard & Hnext).
  { unfold aiMove. cbn [seenWinnerInfo currentBoard].
    rewrite bool_decide_eq_false_2 by (by intros [? ?]).
    rewrite simpleAIMove_run, Hq by done.
    rewrite (writeCell_place _ _ _ _ None Hq').
    destruct (evaluate_total (place b1 (i, j) (Some O))) as [o Ho];
      [by apply place_wf|].
    rewrite Ho.
    destruct o as [|m l|]; eexists; (split_and!; [reflexivity..|]); simpl;
      rewrite Ho; try done. }
  by exists s1, (mkTimer None b1), (i, j), s2.
Qed.

Lemma bot_round_witness :
  wf_board (board botGame) ∧ accepts botGame 0 0 ∧ mode botGame = Some ai ∧
  evaluate (place (board botGame) (Z.to_nat 0, Z.to_nat 0) (Some X)) = Return InProgress ∧
  binary64 (1 # 2) ∧
  ∃ s1 t q s2,
    handleClick botGame 0 0 = Completed s1 [t] ∧
    board s1 = place (board botGame) (Z.to_nat 0, Z.to_nat 0) (Some X) ∧
    currentBoard t = board s1 ∧
    disableBoard s1 = true ∧
    EmptyCell (board s1) q ∧
    aiMove s1 t (1 # 2) = Completed s2 [] ∧
    board s2 = place (board s1) q (Some O) ∧
    (evaluate (board s2) = Return InProgress →
     disableBoard s2 = false ∧ xIsNext s2 = true ∧ winnerInfo s2 = None ∧
     mode s2 = Some ai ∧ status s2 = "Next: X"%string).
Proof.
  assert (wf_board (board botGame)) as Hwf by wf_concrete.
  assert (accepts botGame 0 0) as Hacc.
  { do 2 (split; [reflexivity|]). do 2 (split; [lia|]).
    split; [reflexivity|]. by exists ai. }
  split_and!; [done|done|reflexivity|reflexivity|apply binary64_half|].
  by apply (bot_round botGame 0 0 (1 # 2) Hwf Hacc eq_refl eq_refl binary64_half).
Defined.

(** ** A timer that fires late *)

(** X17. [aiMove] answers to the board its timer was started with, not
    to the board of the state it fires in, and it never touches
    [winnerInfo].  When its move leaves the game in progress, the board
    of the state becomes the timer's board with one more O, enabled with
    X to move and the status line "Next: X", while [winnerInfo] is what
    it was; if a winner was recorded then, every click is ignored and
    every square is rendered disabled. *)
Theorem late_timer_keeps_winner
    (s : state) (t : timer) (rnd : Q) (s' : state) (started : list timer) :
  wf_board (currentBoard t) →
  seenWinnerInfo t = None →
  aiMove s t rnd = Completed s' started →
  evaluate (board s') = Return InProgress →
  (∃ q, EmptyCell (currentBoard t) q ∧ board s' = place (currentBoard t) q (Some O)) ∧
  winnerInfo s' = winnerInfo s ∧
  disableBoard s' = false ∧ xIsNext s' = true ∧ status s' = "Next: X"%string ∧
  (is_Some (winnerInfo s) →
   (∀ row col, ¬ accepts s' row col) ∧
   ∀ r c, r < 3 → c < 3 →
     ∃ sq, renderSquare s' r c = Return sq ∧ disabled sq = true).
Proof.
  intros Hwf Hseen Hmove Hgo. unfold aiMove in Hmove.
  rewrite Hseen, bool_decide_eq_false_2 in Hmove by (by intros [? ?]).
  rewrite simpleAIMove_run in Hmove by done.
  destruct (aiChoice _ _ _ _) as [[aiRow aiCol]|] eqn:Hq; [|done].
  apply aiChoice_EmptyCell in Hq; [|done].
  rewrite (writeCell_place _ _ _ _ None Hq) in Hmove.
  set (newBoard := place (currentBoard t) (aiRow, aiCol) (Some O)) in *.
  assert (wf_board newBoard) as Hwf' by (by apply place_wf).
  destruct (evaluate newBoard) as [[|m l|]|] eqn:Ho; [| | |done];
    injection Hmove as <- <-; simpl in Hgo; try congruence.
  split_and!; [by exists (aiRow, aiCol)|done..|].
  intros [w Hw]. split.
  - intros row col (_ & Hnone & _). simpl in Hnone. congruence.
  - intros r c Hr Hc.
    match goal with |- context [renderSquare ?s1 r c] =>
      destruct (renderSquare_run s1 r c Hwf' Hr Hc)
        as (cl & sq & _ & Hsq & _ & Hdis & _) end.
    exists sq. split; [done|]. rewrite Hdis. simpl. rewrite Hw.
    rewrite (bool_decide_eq_true_2 (is_Some (Some w))) by done.
    apply orb_true_r.
Qed.

Lemma botHasWon_reachable : reachable botHasWon.
Proof. unfold botHasWon. cbn [foldl]. repeat apply reach_step. apply reach_init. Qed.

Lemma late_timer_keeps_winner_witness :
  reachable botHasWon ∧
  pending botHasWon !! 0 = Some (mkTimer None firstMove) ∧
  winnerInfo (app botHasWon) = Some (O, ((0, 2), (1, 1), (2, 0))) ∧
  aiMove (app botHasWon) (mkTimer None firstMove) (1 # 2) = Completed lockedState [] ∧
  evaluate (board lockedState) = Return InProgress ∧
  winnerInfo lockedState = winnerInfo (app botHasWon) ∧
  disableBoard lockedState = false ∧
  (∀ row col, ¬ accepts lockedState row col) ∧
  ∀ r c, r < 3 → c < 3 →
    ∃ sq, renderSquare lockedState r c = Return sq ∧ disabled sq = true.
Proof.
  assert (aiMove (app botHasWon) (mkTimer None firstMove) (1 # 2)
          = Completed lockedState []) as Hmove by (by vm_compute).
  assert (winnerInfo (app botHasWon) = Some (O, ((0, 2), (1, 1), (2, 0)))) as Hw
    by (by vm_compute).
  assert (wf_board (currentBoard (mkTimer None firstMove))) as Hwf by wf_concrete.
  assert (evaluate (board lockedState) = Return InProgress) as Hgo by reflexivity.
  destruct (late_timer_keeps_winner (app botHasWon) (mkTimer None firstMove) (1 # 2)
              lockedState [] Hwf eq_refl Hmove Hgo)
    as (_ & Hkeep & Hen & _ & _ & Hlock).
  destruct Hlock as [Hclicks Hsquares]; [by rewrite Hw|].
  split_and!; [apply botHasWon_reachable|by vm_compute|done..].
Defined.
